(** * Dual-endpoint snapshot store: embedding and verified properties

    A shallow embedding of the storage-abstraction layer of
    etcd-backup-restore (package [snapstore]):

    - the transient/fatal error classifier,
    - the dual-endpoint store [DualSnapStore] with its circuit breaker
      and its merge of snapshot listings,
    - the resilient wrapper [ResilientS3SnapStore],
    - the store resolver ([GetSnapstore], [GetResilientSnapstore]),
    - the chunk-upload coordinator [collectChunkUploadError].

    Go values are modelled as the code has them: an [error] is either nil
    or a value with its [Error()] text, a Go [int] is a [Z] with 64-bit
    wrap-around, a [map[string]*Snapshot] is a [gmap string Snapshot], a
    store behind the [SnapStore] interface is a state together with the
    four operations of the interface, written in state-passing style.
    Logging has no effect on any result and is left out. *)

From Stdlib Require Import ZArith Ascii.
From Stdlib.Strings Require Import Byte.
From stdpp Require Import gmap strings list sorting.

Local Open Scope Z_scope.

(** ** Go base types *)

(** Go's [int] and [int64] on the 64-bit targets of the program. *)
Definition wrapInt (z : Z) : Z := (z + 2 ^ 63) mod 2 ^ 64 - 2 ^ 63.

(** Go's [uint] on the same targets. *)
Definition wrapUint (z : Z) : Z := z mod 2 ^ 64.

(** [strings.HasPrefix]. *)
Fixpoint HasPrefix (s prefix : string) : bool :=
  match prefix, s with
  | EmptyString, _ => true
  | String a p, String b t => if Ascii.eqb a b then HasPrefix t p else false
  | String _ _, EmptyString => false
  end.

(** [strings.Contains]. *)
Fixpoint Contains (s substr : string) : bool :=
  HasPrefix s substr ||
  match s with
  | EmptyString => false
  | String _ t => Contains t substr
  end.

(** A non-nil Go [error]: the text returned by [Error()], and, when the
    dynamic type implements [net.Error], the answers of [Timeout()] and
    [Temporary()]. *)
Record GoError := {
  errText : string;
  netError : option (bool * bool)
}.

(** The interface type [error]; [None] is [nil]. *)
Definition error := option GoError.

(** [fmt.Errorf] without a [%w] verb: a plain error carrying the text. *)
Definition Errorf (text : string) : error :=
  Some {| errText := text; netError := None |}.

(** The [%v] verb applied to an [error]. *)
Definition fmtV (e : error) : string :=
  match e with
  | Some g => errText g
  | None => "<nil>"
  end.

(** [io.ReadCloser], as far as the code observes it: what [io.ReadAll]
    returns on it. *)
Record ReadCloser := {
  rcData : list byte;
  rcErr : error
}.

Definition ReadAll (rc : ReadCloser) : list byte * error := (rcData rc, rcErr rc).

(** [io.NopCloser(bytes.NewReader(data))]. *)
Definition NopCloser (data : list byte) : ReadCloser :=
  {| rcData := data; rcErr := None |}.

(** ** Data model (package [brtypes]) *)

(** Modelled from the spec: [brtypes.Snapshot] is declared in pkg/types,
    which is not among the sources.  The source reads the fields
    [SnapDir], [SnapName] and [Prefix]; the others are the ones the data
    model lists (kind, start and end revision, creation time). *)
Record Snapshot := {
  Kind : string;
  StartRevision : Z;
  LastRevision : Z;
  CreatedOn : Z;
  SnapDir : string;
  SnapName : string;
  Prefix : string
}.

(** [brtypes.SnapList], a slice of snapshot references.  Nothing in the
    modelled code writes through these references, so an entry is
    modelled by the snapshot it points to. *)
Abbreviation SnapList := (list Snapshot).

(** [brtypes.OperationResult]. *)
Record OperationResult := {
  Endpoint : string;
  Success : bool;
  Error : error
}.

(** The interface [brtypes.SnapStore].  A store is a state of type [S];
    every method returns its results together with the state after the
    call. *)
Class SnapStore (S : Type) := {
  storeFetch : Snapshot → S → (option ReadCloser * error) * S;
  storeList : bool → S → (SnapList * error) * S;
  storeSave : Snapshot → ReadCloser → S → error * S;
  storeDelete : Snapshot → S → error * S
}.

(** Modelled from the spec: the domain ordering [SnapList.Less] is declared
    in pkg/types, which is not among the sources.  The data model calls it
    a chronological / revision order: by last revision, then by creation
    time.  The dual store takes the ordering as a parameter; this one is
    used where a concrete ordering is needed. *)
Definition revisionLess (a b : Snapshot) : bool :=
  (LastRevision a <? LastRevision b) ||
  ((LastRevision a =? LastRevision b) && (CreatedOn a <? CreatedOn b)).

(** ** Error classifier *)

(** The body shared by [DualSnapStore.isTransientError] and
    [ResilientS3SnapStore.IsTransientError], which are the same text. *)
Definition isTransientError (err : error) : bool :=
  match err with
  | None => false
  | Some g =>
      let errStr := errText g in
      if Contains errStr "no such host" ||
         Contains errStr "dial tcp: lookup" ||
         Contains errStr "request send failed"
      then true
      else if Contains errStr "connection refused" ||
              Contains errStr "connection timeout" ||
              Contains errStr "i/o timeout"
      then true
      else match netError g with
           | Some (timeout, temporary) => timeout || temporary
           | None => false
           end
  end.

(** [isSnapstoreTransientError], the classifier used at construction. *)
Definition isSnapstoreTransientError (err : error) : bool :=
  match err with
  | None => false
  | Some g =>
      let errStr := errText g in
      if Contains errStr "no such host" ||
         Contains errStr "dial tcp: lookup" ||
         Contains errStr "request send failed"
      then true
      else if Contains errStr "connection refused" ||
              Contains errStr "connection timeout" ||
              Contains errStr "i/o timeout"
      then true
      else if Contains errStr "RequestError" ||
              Contains errStr "NoCredentialsErr" ||
              Contains errStr "dial tcp"
      then true
      else false
  end.

(** The part of the two classifiers that looks at the error text only: the
    six signatures both of them test first. *)
Definition textTransient (errStr : string) : bool :=
  Contains errStr "no such host" ||
  Contains errStr "dial tcp: lookup" ||
  Contains errStr "request send failed" ||
  Contains errStr "connection refused" ||
  Contains errStr "connection timeout" ||
  Contains errStr "i/o timeout".

(** ** Dual store *)

(** The struct [DualSnapStore]: the two stores and the circuit-breaker
    fields.  The logger is left out; the lock [mu] protects the two
    breaker fields and has no content of its own. *)
Record DualSnapStore (P Q : Type) := mkDual {
  primary : P;
  secondary : Q;
  primaryFailed : bool;
  primaryFailCount : Z
}.
Arguments mkDual {P Q}.
Arguments primary {P Q}.
Arguments secondary {P Q}.
Arguments primaryFailed {P Q}.
Arguments primaryFailCount {P Q}.

Module Dual.
Section Methods.
Context {P Q : Type} `{SnapStore P} `{SnapStore Q}.

(** The domain ordering [SnapList.Less] is declared in pkg/types, not
    among the sources; it is a parameter of the merge. *)
Variable Less : Snapshot → Snapshot → bool.

Abbreviation DS := (DualSnapStore P Q).

Definition NewDualSnapStore (p : P) (q : Q) : DS :=
  {| primary := p; secondary := q; primaryFailed := false; primaryFailCount := 0 |}.

Definition withPrimary (p : P) (ds : DS) : DS :=
  {| primary := p; secondary := secondary ds;
     primaryFailed := primaryFailed ds; primaryFailCount := primaryFailCount ds |}.

Definition withSecondary (q : Q) (ds : DS) : DS :=
  {| primary := primary ds; secondary := q;
     primaryFailed := primaryFailed ds; primaryFailCount := primaryFailCount ds |}.

Definition resetPrimaryFailureState (ds : DS) : DS :=
  {| primary := primary ds; secondary := secondary ds;
     primaryFailed := false; primaryFailCount := 0 |}.

Definition isPrimaryDisabled (ds : DS) : bool :=
  primaryFailed ds && (3 <=? primaryFailCount ds).

Definition recordPrimaryFailure (err : error) (ds : DS) : DS :=
  if isTransientError err then
    {| primary := primary ds; secondary := secondary ds;
       primaryFailed := true;
       primaryFailCount := wrapInt (primaryFailCount ds + 1) |}
  else
    {| primary := primary ds; secondary := secondary ds;
       primaryFailed := primaryFailed ds;
       primaryFailCount := 0 |}.

(** The second half of [Save], from "Try secondary endpoint" on. *)
Definition saveSecondary (snap : Snapshot) (data : list byte)
    (primaryResult : OperationResult) (ds : DS) : error * DS :=
  let secondaryRC := NopCloser data in
  let '(err, q) := storeSave snap secondaryRC (secondary ds) in
  let ds := withSecondary q ds in
  match err with
  | Some _ =>
      let secondaryResult :=
        {| Endpoint := "secondary"; Success := false; Error := err |} in
      (Errorf ("failed to save snapshot " +:+ SnapName snap +:+
               " to both endpoints - Primary: " +:+ fmtV (Error primaryResult) +:+
               ", Secondary: " +:+ fmtV (Error secondaryResult)), ds)
  | None => (None, ds)
  end.

Definition Save (snap : Snapshot) (rc : ReadCloser) (ds : DS) : error * DS :=
  let '(data, err) := ReadAll rc in
  match err with
  | Some _ => (Errorf ("failed to read snapshot data: " +:+ fmtV err), ds)
  | None =>
      if negb (isPrimaryDisabled ds) then
        let primaryRC := NopCloser data in
        let '(err, p) := storeSave snap primaryRC (primary ds) in
        let ds := withPrimary p ds in
        match err with
        | Some _ =>
            let primaryResult :=
              {| Endpoint := "primary"; Success := false; Error := err |} in
            saveSecondary snap data primaryResult (recordPrimaryFailure err ds)
        | None => (None, resetPrimaryFailureState ds)
        end
      else
        let primaryResult :=
          {| Endpoint := "primary"; Success := false;
             Error := Errorf "primary endpoint disabled due to repeated failures" |} in
        saveSecondary snap data primaryResult ds
  end.

(** The second half of [Fetch], from "Try secondary endpoint" on. *)
Definition fetchSecondary (snap : Snapshot) (ds : DS)
    : (option ReadCloser * error) * DS :=
  let '((rc, err), q) := storeFetch snap (secondary ds) in
  let ds := withSecondary q ds in
  match err with
  | None => ((rc, None), ds)
  | Some _ =>
      ((None,
        Errorf ("failed to fetch snapshot " +:+ SnapName snap +:+
                " from both endpoints - Primary: " +:+
                fmtV (Errorf "disabled due to failures") +:+
                ", Secondary: " +:+ fmtV err)), ds)
  end.

Definition Fetch (snap : Snapshot) (ds : DS) : (option ReadCloser * error) * DS :=
  if negb (isPrimaryDisabled ds) then
    let '((rc, err), p) := storeFetch snap (primary ds) in
    let ds := withPrimary p ds in
    match err with
    | None => ((rc, None), resetPrimaryFailureState ds)
    | Some _ => fetchSecondary snap (recordPrimaryFailure err ds)
    end
  else fetchSecondary snap ds.

(** The map key of [mergeSnapshots]: [fmt.Sprintf("%s-%s", dir, name)]. *)
Definition snapKey (snap : Snapshot) : string :=
  SnapDir snap +:+ "-" +:+ SnapName snap.

(** First loop of [mergeSnapshots]. *)
Definition addPrimary (snapMap : gmap string Snapshot) (snap : Snapshot)
    : gmap string Snapshot :=
  <[snapKey snap := snap]> snapMap.

(** Second loop of [mergeSnapshots]. *)
Definition addSecondary (snapMap : gmap string Snapshot) (snap : Snapshot)
    : gmap string Snapshot :=
  match snapMap !! snapKey snap with
  | Some _ => snapMap
  | None => <[snapKey snap := snap]> snapMap
  end.

Definition snapMapOf (primarySnaps secondarySnaps : SnapList) : gmap string Snapshot :=
  foldl addSecondary (foldl addPrimary ∅ primarySnaps) secondarySnaps.

(** The (directory, name) pair of a snapshot. *)
Definition pairOf (snap : Snapshot) : string * string := (SnapDir snap, SnapName snap).

(** The entries of a list whose key is [k]. *)
Definition withKey (k : string) (snaps : SnapList) : SnapList :=
  filter (λ snap, snapKey snap = k) snaps.

(** The entries of a list whose (directory, name) pair is that of [x]. *)
Definition withPairOf (x : Snapshot) (snaps : SnapList) : SnapList :=
  filter (λ snap, pairOf snap = pairOf x) snaps.

(** No two entries of the two lists that differ in directory or name have
the same map key. *)
Definition keysUnambiguous (primarySnaps secondarySnaps : SnapList) : Prop :=
  Forall (λ a,
    Forall (λ b, snapKey a = snapKey b → pairOf a = pairOf b)
           (primarySnaps ++ secondarySnaps))
    (primarySnaps ++ secondarySnaps).

#[global] Instance keysUnambiguous_dec primarySnaps secondarySnaps :
  Decision (keysUnambiguous primarySnaps secondarySnaps).
Proof. unfold keysUnambiguous. apply _. Defined.

(** The merge read as a de-duplication exactly by (directory, name):
every primary entry is kept, and a secondary entry is kept exactly when
no primary entry has its pair. *)
Definition dedupExactlyByPair (primarySnaps secondarySnaps merged : SnapList) : Prop :=
  (∀ p, p ∈ primarySnaps → p ∈ merged) ∧
  (∀ s, s ∈ secondarySnaps →
     (s ∈ merged ↔ ¬ ∃ p, p ∈ primarySnaps ∧ pairOf p = pairOf s)).

(** What [sort.Sort] asks of a result: no entry is [Less] than one
    before it. *)
Definition notAfter (a b : Snapshot) : Prop := Less b a = false.

#[local] Instance notAfter_dec a b : Decision (notAfter a b).
Proof. unfold notAfter. apply _. Defined.

(** [mergeSnapshots].  Go leaves the iteration order of a map and the
    order [sort.Sort] gives to entries that compare equal unspecified;
    the model fixes one order for each ([map_to_list], a merge sort),
    and the theorems on the result rely on neither choice. *)
Definition mergeSnapshots (primarySnaps secondarySnaps : SnapList) : SnapList :=
  let snapMap := snapMapOf primarySnaps secondarySnaps in
  let mergedSnaps := (map_to_list snapMap).*2 in
  merge_sort notAfter mergedSnaps.

(** The case a [select] of [List] takes.  [List] closes its four channels
before it collects the results, so when a [select] runs both of its
receives can proceed: the one on the channel that holds the value sent,
and the one on the other, closed and empty, channel, which yields the
zero value.  Go takes one of the cases that can proceed at random; the
[default] case is never taken. *)
Inductive SelectCase :=
  | FromSnapsCh
  | FromErrCh.

(** One of the two [select] statements of [List]: what it leaves in the
variables for the list and the error of an endpoint whose listing
returned [snaps] and [err].  The list went to the snapshot channel when
[err] is nil, the error to the error channel otherwise. *)
Definition collect (sel : SelectCase) (snaps : SnapList) (err : error)
    : SnapList * error :=
  match sel with
  | FromSnapsCh => (match err with Some _ => [] | None => snaps end, None)
  | FromErrCh => ([], err)
  end.


(** [List], given the cases its two [select] statements take.  The two
listings run in two goroutines that are joined before anything else
happens; each works on its own store, so the model runs them one after
the other. *)
Definition List (includeAll : bool) (selP selQ : SelectCase) (ds : DS)
    : (SnapList * error) * DS :=
  let '((snapsP, errP), p) := storeList includeAll (primary ds) in
  let '((snapsQ, errQ), q) := storeList includeAll (secondary ds) in
  let ds := withSecondary q (withPrimary p ds) in
  let '(primarySnaps, primaryErr) := collect selP snapsP errP in
  let '(secondarySnaps, secondaryErr) := collect selQ snapsQ errQ in
  match primaryErr, secondaryErr with
  | Some _, Some _ =>
      if isTransientError primaryErr && isTransientError secondaryErr then
        (([],
          Errorf ("both endpoints temporarily unavailable - Primary: " +:+
                  fmtV primaryErr +:+ ", Secondary: " +:+ fmtV secondaryErr)), ds)
      else
        (([],
          Errorf ("failed to list snapshots from both endpoints - Primary: " +:+
                  fmtV primaryErr +:+ ", Secondary: " +:+ fmtV secondaryErr)), ds)
  | _, _ =>
      let mergedSnaps := mergeSnapshots primarySnaps secondarySnaps in
      ((mergedSnaps, None), ds)
  end.

(** [Delete].  Both deletions run concurrently, each on its own store. *)
Definition Delete (snap : Snapshot) (ds : DS) : error * DS :=
  let '(errP, p) := storeDelete snap (primary ds) in
  let '(errQ, q) := storeDelete snap (secondary ds) in
  let ds := withSecondary q (withPrimary p ds) in
  let primaryResult :=
    match errP with
    | Some _ => {| Endpoint := "primary"; Success := false; Error := errP |}
    | None => {| Endpoint := "primary"; Success := true; Error := None |}
    end in
  let secondaryResult :=
    match errQ with
    | Some _ => {| Endpoint := "secondary"; Success := false; Error := errQ |}
    | None => {| Endpoint := "secondary"; Success := true; Error := None |}
    end in
  if Success primaryResult && Success secondaryResult then (None, ds)
  else if negb (Success primaryResult) && negb (Success secondaryResult) then
    (Errorf ("failed to delete snapshot " +:+ SnapName snap +:+
             " from both endpoints - Primary: " +:+ fmtV (Error primaryResult) +:+
             ", Secondary: " +:+ fmtV (Error secondaryResult)), ds)
  else (None, ds).

(** A call on the dual store (for [List], with the cases its [select]
statements take), and the store after a sequence of calls made one after
the other. *)
Inductive Op :=
  | OpSave (snap : Snapshot) (rc : ReadCloser)
  | OpFetch (snap : Snapshot)
  | OpList (includeAll : bool) (selP selQ : SelectCase)
  | OpDelete (snap : Snapshot).

Definition exec (op : Op) (ds : DS) : DS :=
  match op with
  | OpSave snap rc => snd (Save snap rc ds)
  | OpFetch snap => snd (Fetch snap ds)
  | OpList includeAll selP selQ => snd (List includeAll selP selQ ds)
  | OpDelete snap => snd (Delete snap ds)
  end.

Fixpoint run (ops : list Op) (ds : DS) : DS :=
  match ops with
  | [] => ds
  | op :: ops => run ops (exec op ds)
  end.

(** The error the primary gives to the call a [Save] or [Fetch] makes of
it when the primary is tried. *)
Definition primaryAnswer (op : Op) (ds : DS) : error :=
  match op with
  | OpSave snap rc => fst (storeSave snap (NopCloser (rcData rc)) (primary ds))
  | OpFetch snap => snd (fst (storeFetch snap (primary ds)))
  | OpList _ _ _ | OpDelete _ => None
  end.

(** The calls that consult the circuit breaker: a [Fetch], and a [Save]
whose content could be read. *)
Definition consultsBreaker (op : Op) : bool :=
  match op with
  | OpSave _ rc => match rcErr rc with None => true | Some _ => false end
  | OpFetch _ => true
  | OpList _ _ _ | OpDelete _ => false
  end.

(** The values the failure counter takes in a store made by
[NewDualSnapStore]. *)
Definition counterInRange (ds : DS) : Prop := 0 <= primaryFailCount ds <= 3.

(** The breaker states a store made by [NewDualSnapStore] goes through. *)
Definition breakerInv (ds : DS) : Prop :=
  counterInRange ds ∧ (primaryFailed ds = false → primaryFailCount ds = 0).

End Methods.
End Dual.

(** ** Sample data *)

Definition sampleSnapshot (dir name : string) (rev : Z) : Snapshot :=
  {| Kind := "Full"; StartRevision := 0; LastRevision := rev; CreatedOn := 0;
     SnapDir := dir; SnapName := name; Prefix := "v2" |}.

(** ** Test doubles *)

(** A spy around a store: it forwards every call and counts it.  The
    call counts are how "the store was not invoked" is observed. *)
Record Spy (T : Type) := mkSpy {
  spied : T;
  fetchCalls : nat;
  listCalls : nat;
  saveCalls : nat;
  deleteCalls : nat
}.
Arguments mkSpy {T}.
Arguments spied {T}.
Arguments fetchCalls {T}.
Arguments listCalls {T}.
Arguments saveCalls {T}.
Arguments deleteCalls {T}.

#[global] Instance Spy_SnapStore {T : Type} `{SnapStore T} : SnapStore (Spy T) := {|
  storeFetch snap s :=
    let '(r, s') := storeFetch snap (spied s) in
    (r, mkSpy s' (S (fetchCalls s)) (listCalls s) (saveCalls s) (deleteCalls s));
  storeList includeAll s :=
    let '(r, s') := storeList includeAll (spied s) in
    (r, mkSpy s' (fetchCalls s) (S (listCalls s)) (saveCalls s) (deleteCalls s));
  storeSave snap rc s :=
    let '(r, s') := storeSave snap rc (spied s) in
    (r, mkSpy s' (fetchCalls s) (listCalls s) (S (saveCalls s)) (deleteCalls s));
  storeDelete snap s :=
    let '(r, s') := storeDelete snap (spied s) in
    (r, mkSpy s' (fetchCalls s) (listCalls s) (saveCalls s) (S (deleteCalls s)))
|}.

Definition newSpy {T : Type} (s : T) : Spy T := mkSpy s 0 0 0 0.

(** A stub store: every method gives a fixed answer. *)
Record Stub := mkStub {
  stubFetch : option ReadCloser * error;
  stubList : SnapList * error;
  stubSave : error;
  stubDelete : error
}.

#[global] Instance Stub_SnapStore : SnapStore Stub := {|
  storeFetch _ s := (stubFetch s, s);
  storeList _ s := (stubList s, s);
  storeSave _ _ s := (stubSave s, s);
  storeDelete _ s := (stubDelete s, s)
|}.

(** A store on which every call fails with the given text. *)
Definition failingStub (text : string) : Stub :=
  mkStub (None, Errorf text) ([], Errorf text) (Errorf text) (Errorf text).

(** A store on which every call succeeds and that lists [snaps]. *)
Definition workingStub (snaps : SnapList) : Stub :=
  mkStub (Some (NopCloser []), None) (snaps, None) None None.

Definition sampleSnap : Snapshot :=
  sampleSnapshot "Backup-1640995200" "Full-00000000-00000010-1640995200" 10.

Definition sampleContent : ReadCloser := NopCloser [x65; x74; x63; x64].

(** A content stream whose reading breaks off. *)
Definition brokenContent : ReadCloser :=
  {| rcData := [x65]; rcErr := Errorf "unexpected EOF" |}.

Definition dnsFailure : string := "dial tcp: lookup s3.example.com: no such host".

(** ** Resilient wrapper *)

(** The struct [ResilientS3SnapStore]: the embedded [*S3SnapStore], a
    store whose code is not part of this development, and a logger. *)
Record ResilientS3SnapStore (S : Type) := mkResilient {
  S3SnapStore : S
}.
Arguments mkResilient {S}.
Arguments S3SnapStore {S}.

Module Resilient.
Section Methods.
Context {S : Type} `{SnapStore S}.

Abbreviation RS := (ResilientS3SnapStore S).

Definition IsTransientError (err : error) : bool := isTransientError err.

(** The test [err != nil && r.IsTransientError(err)]. *)
Definition failedTransiently (err : error) : bool :=
  match err with
  | Some _ => IsTransientError err
  | None => false
  end.

Definition List (includeAll : bool) (r : RS) : (SnapList * error) * RS :=
  let '((snapList, err), s) := storeList includeAll (S3SnapStore r) in
  let r := mkResilient s in
  if failedTransiently err then (([], None), r)
  else ((snapList, err), r).

Definition Fetch (snap : Snapshot) (r : RS) : (option ReadCloser * error) * RS :=
  let '((rc, err), s) := storeFetch snap (S3SnapStore r) in
  let r := mkResilient s in
  if failedTransiently err then ((None, err), r)
  else ((rc, err), r).

Definition Save (snap : Snapshot) (rc : ReadCloser) (r : RS) : error * RS :=
  let '(err, s) := storeSave snap rc (S3SnapStore r) in
  let r := mkResilient s in
  if failedTransiently err then (err, r)
  else (err, r).

Definition Delete (snap : Snapshot) (r : RS) : error * RS :=
  let '(err, s) := storeDelete snap (S3SnapStore r) in
  let r := mkResilient s in
  if failedTransiently err then (err, r)
  else (err, r).


#[global] Instance ResilientS3SnapStore_SnapStore : SnapStore RS := {|
  storeFetch := Fetch;
  storeList := List;
  storeSave := Save;
  storeDelete := Delete
|}.

End Methods.
End Resilient.

(** ** Store resolver *)

Module Resolver.

(** The provider names are string constants of pkg/types, which is not
    among the sources.  A provider string is modelled by the constant it
    equals: one constructor for each constant the source names, one for
    the empty string, one for every other string. *)
Inductive ProviderKind :=
  | ProviderUnset
  | SnapstoreProviderLocal
  | SnapstoreProviderS3
  | SnapstoreProviderABS
  | SnapstoreProviderGCS
  | SnapstoreProviderSwift
  | SnapstoreProviderOSS
  | SnapstoreProviderECS
  | SnapstoreProviderOCS
  | SnapstoreProviderFakeFailed
  | ProviderOther (name : string).

(** Modelled from the spec: [brtypes.SnapstoreConfig] is declared in
    pkg/types, which is not among the sources.  The source reads or
    writes [Provider], [Container], [Prefix], [TempDir], [IsSource],
    [IsSecondary], [SecondaryProvider] and [SecondaryContainer]; the
    other fields are the chunking parameters and the secondary block the
    data model lists. *)
Record SnapstoreConfig := mkConfig {
  Provider : ProviderKind;
  Container : string;
  Prefix : string;
  TempDir : string;
  MaxParallelChunkUploads : Z;
  MinChunkSize : Z;
  IsSource : bool;
  IsSecondary : bool;
  SecondaryProvider : ProviderKind;
  SecondaryContainer : string;
  SecondaryPrefix : string;
  SecondaryMaxParallelChunkUploads : Z;
  SecondaryMinChunkSize : Z
}.

Definition setPrefix (v : string) (c : SnapstoreConfig) : SnapstoreConfig :=
  mkConfig (Provider c) (Container c) v (TempDir c)
    (MaxParallelChunkUploads c) (MinChunkSize c) (IsSource c) (IsSecondary c)
    (SecondaryProvider c) (SecondaryContainer c) (SecondaryPrefix c)
    (SecondaryMaxParallelChunkUploads c) (SecondaryMinChunkSize c).

Definition setContainer (v : string) (c : SnapstoreConfig) : SnapstoreConfig :=
  mkConfig (Provider c) v (Prefix c) (TempDir c)
    (MaxParallelChunkUploads c) (MinChunkSize c) (IsSource c) (IsSecondary c)
    (SecondaryProvider c) (SecondaryContainer c) (SecondaryPrefix c)
    (SecondaryMaxParallelChunkUploads c) (SecondaryMinChunkSize c).

Definition setTempDir (v : string) (c : SnapstoreConfig) : SnapstoreConfig :=
  mkConfig (Provider c) (Container c) (Prefix c) v
    (MaxParallelChunkUploads c) (MinChunkSize c) (IsSource c) (IsSecondary c)
    (SecondaryProvider c) (SecondaryContainer c) (SecondaryPrefix c)
    (SecondaryMaxParallelChunkUploads c) (SecondaryMinChunkSize c).

(** What a constructor is asked to build.  The constructors of the
    concrete stores are not part of this development; a store is
    modelled by the call that made it. *)
#[warnings="-register-all"] Inductive Store :=
  | LocalSnapStore (pathElems : list string)
  | ProviderSnapStore (provider : ProviderKind) (config : SnapstoreConfig) (identifier : string)
  | FailedSnapStore
  | ResilientS3 (s3Store : Store)
  | DualStore (primaryStore secondaryStore : option Store).

(** The process environment the resolver reads and changes: the
    environment variables, the directories that exist, and how the
    file-system calls and the store constructors fail. *)
Record Host := mkHost {
  environ : string → string;
  dirs : gset string;
  statFailure : string → error;
  mkdirFailure : string → error;
  homeDir : string * error;
  construct : Store → error
}.

Definition Getenv (h : Host) (name : string) : string := environ h name.

Inductive StatResult :=
  | StatOk
  | StatNotExist
  | StatFailed (e : GoError).

(** [os.Stat], as far as its error is looked at. *)
Definition Stat (h : Host) (path : string) : StatResult :=
  match statFailure h path with
  | Some e => StatFailed e
  | None => if decide (path ∈ dirs h) then StatOk else StatNotExist
  end.

(** [os.MkdirAll]. *)
Definition MkdirAll (path : string) (h : Host) : error * Host :=
  match mkdirFailure h path with
  | Some e => (Some e, h)
  | None =>
      (None, mkHost (environ h) ({[path]} ∪ dirs h) (statFailure h)
                    (mkdirFailure h) (homeDir h) (construct h))
  end.

(** A call of one of the store constructors. *)
Definition newStore (h : Host) (s : Store) : option Store * error :=
  match construct h s with
  | Some e => (None, Some e)
  | None => (Some s, None)
  end.

Definition envStorageContainer : string := "STORAGE_CONTAINER".
Definition sourceEnvStorageContainer : string := "SOURCE_STORAGE_CONTAINER".
Definition secondaryEnvStorageContainer : string := "SECONDARY_STORAGE_CONTAINER".
Definition defaultLocalStore : string := "default.bkp".
Definition sourcePrefixString : string := "SOURCE_".
Definition secondaryPrefixString : string := "SECONDARY_".

Definition isEmpty (s : string) : bool := String.eqb s "".

Definition providerIs (a b : ProviderKind) : bool :=
  match a, b with
  | ProviderUnset, ProviderUnset
  | SnapstoreProviderLocal, SnapstoreProviderLocal
  | SnapstoreProviderS3, SnapstoreProviderS3
  | SnapstoreProviderABS, SnapstoreProviderABS
  | SnapstoreProviderGCS, SnapstoreProviderGCS
  | SnapstoreProviderSwift, SnapstoreProviderSwift
  | SnapstoreProviderOSS, SnapstoreProviderOSS
  | SnapstoreProviderECS, SnapstoreProviderECS
  | SnapstoreProviderOCS, SnapstoreProviderOCS
  | SnapstoreProviderFakeFailed, SnapstoreProviderFakeFailed => true
  | ProviderOther x, ProviderOther y => String.eqb x y
  | _, _ => false
  end.

Section Resolve.

(** The constant [backupVersionV2], and the methods [HasSecondaryEndpoint]
    and [GetSecondaryConfig] of the configuration, are declared outside
    the sources; they are parameters.  [GetSecondaryConfig] gives [None]
    for [nil] and otherwise a configuration of its own. *)
Variable backupVersionV2 : string.
Variable HasSecondaryEndpoint : SnapstoreConfig → bool.
Variable GetSecondaryConfig : SnapstoreConfig → option SnapstoreConfig.

Definition backupVersion : string := backupVersionV2.

(** A resolver result: the store or nil, the error or nil, then the
    configuration the caller passed by reference as it is after the call,
    and the host afterwards. *)
Abbreviation Resolved := ((option Store * error) * SnapstoreConfig * Host)%type.

(** The [switch config.Provider] of [getSingleSnapstoreWithIdentifier]. *)
Definition providerSwitch (config : SnapstoreConfig) (identifier : string) (h : Host)
    : Resolved :=
  match Provider config with
  | SnapstoreProviderLocal | ProviderUnset =>
      let config :=
        if isEmpty (Container config) then setContainer defaultLocalStore config
        else config in
      if HasPrefix (Container config) "../../../test/output" then
        (newStore h (LocalSnapStore [Container config; Prefix config]), config, h)
      else
        match homeDir h with
        | (_, Some e) => ((None, Some e), config, h)
        | (dir, None) =>
            (newStore h (LocalSnapStore [dir; Container config; Prefix config]), config, h)
        end
  | SnapstoreProviderS3 =>
      (newStore h (ProviderSnapStore SnapstoreProviderS3 config identifier), config, h)
  | SnapstoreProviderABS =>
      (newStore h (ProviderSnapStore SnapstoreProviderABS config ""), config, h)
  | SnapstoreProviderGCS =>
      (newStore h (ProviderSnapStore SnapstoreProviderGCS config ""), config, h)
  | SnapstoreProviderSwift =>
      (newStore h (ProviderSnapStore SnapstoreProviderSwift config ""), config, h)
  | SnapstoreProviderOSS =>
      (newStore h (ProviderSnapStore SnapstoreProviderOSS config ""), config, h)
  | SnapstoreProviderECS =>
      (newStore h (ProviderSnapStore SnapstoreProviderECS config identifier), config, h)
  | SnapstoreProviderOCS =>
      (newStore h (ProviderSnapStore SnapstoreProviderOCS config identifier), config, h)
  | SnapstoreProviderFakeFailed => ((Some FailedSnapStore, None), config, h)
  | ProviderOther name =>
      ((None, Errorf ("unsupported storage provider : " +:+ name)), config, h)
  end.

Definition getSingleSnapstoreWithIdentifier (config : SnapstoreConfig)
    (identifier : string) (h : Host) : Resolved :=
  let config :=
    if isEmpty (Prefix config) then setPrefix backupVersion config else config in
  let config :=
    if isEmpty (Container config) then
      if IsSource config then setContainer (Getenv h sourceEnvStorageContainer) config
      else setContainer (Getenv h envStorageContainer) config
    else config in
  if isEmpty (Container config) && negb (providerIs (Provider config) ProviderUnset)
     && negb (providerIs (Provider config) SnapstoreProviderLocal)
  then ((None, Errorf "storage container name not specified"), config, h)
  else
    let config :=
      if (String.length (TempDir config) =? 0)%nat then setTempDir "/tmp" config
      else config in
    match Stat h (TempDir config) with
    | StatFailed e =>
        ((None, Errorf ("failed to get file info of temporary directory " +:+
                        TempDir config +:+ ": " +:+ errText e)), config, h)
    | StatNotExist =>
        match MkdirAll (TempDir config) h with
        | (Some e, h) =>
            ((None, Errorf ("failed to create temporary directory " +:+
                            TempDir config +:+ ": " +:+ errText e)), config, h)
        | (None, h) => providerSwitch config identifier h
        end
    | StatOk => providerSwitch config identifier h
    end.

Definition getSingleSnapstore (config : SnapstoreConfig) (h : Host) : Resolved :=
  getSingleSnapstoreWithIdentifier config "primary" h.

Definition GetDualSnapstore (config : SnapstoreConfig) (h : Host) : Resolved :=
  match getSingleSnapstore config h with
  | ((_, Some e), config, h) =>
      ((None, Errorf ("failed to create primary snapstore: " +:+ errText e)), config, h)
  | ((primaryStore, None), config, h) =>
      match GetSecondaryConfig config with
      | None => ((None, Errorf "secondary configuration is invalid"), config, h)
      | Some secondaryConfig =>
          match getSingleSnapstore secondaryConfig h with
          | ((_, Some e), _, h) =>
              ((None, Errorf ("failed to create secondary snapstore: " +:+ errText e)),
               config, h)
          | ((secondaryStore, None), _, h) =>
              ((Some (DualStore primaryStore secondaryStore), None), config, h)
          end
      end
  end.

Definition GetSnapstore (config : SnapstoreConfig) (h : Host) : Resolved :=
  if HasSecondaryEndpoint config then GetDualSnapstore config h
  else getSingleSnapstore config h.

Definition createResilientSingleSnapstoreWithIdentifier (config : SnapstoreConfig)
    (identifier : string) (h : Host) : Resolved :=
  match getSingleSnapstoreWithIdentifier config identifier h with
  | ((_, Some e), config, h) => ((None, Some e), config, h)
  | ((store, None), config, h) =>
      if providerIs (Provider config) SnapstoreProviderS3 then
        match store with
        | Some (ProviderSnapStore SnapstoreProviderS3 c i) =>
            ((Some (ResilientS3 (ProviderSnapStore SnapstoreProviderS3 c i)), None),
             config, h)
        | _ => ((store, None), config, h)
        end
      else ((store, None), config, h)
  end.

Definition createResilientSingleSnapstore (config : SnapstoreConfig) (h : Host)
    : Resolved :=
  createResilientSingleSnapstoreWithIdentifier config "primary" h.

Definition createResilientDualSnapstore (config : SnapstoreConfig) (h : Host)
    : Resolved :=
  let '((primaryStore, primaryErr), config, h) :=
    createResilientSingleSnapstore config h in
  match GetSecondaryConfig config with
  | None =>
      match primaryErr with
      | Some _ =>
          ((None, Errorf ("primary snapstore failed and no secondary configured: " +:+
                          fmtV primaryErr)), config, h)
      | None => ((primaryStore, None), config, h)
      end
  | Some secondaryConfig =>
      let '((secondaryStore, secondaryErr), _, h) :=
        createResilientSingleSnapstoreWithIdentifier secondaryConfig "secondary" h in
      let bothFatal :=
        match primaryErr, secondaryErr with
        | Some _, Some _ =>
            negb (isSnapstoreTransientError primaryErr) &&
            negb (isSnapstoreTransientError secondaryErr)
        | _, _ => false
        end in
      if bothFatal then
        ((None,
          Errorf ("failed to create both primary and secondary snapstores - Primary: " +:+
                  fmtV primaryErr +:+ ", Secondary: " +:+ fmtV secondaryErr)), config, h)
      else
        match primaryStore, secondaryStore with
        | Some p, Some s => ((Some (DualStore (Some p) (Some s)), None), config, h)
        | Some p, None => ((Some p, None), config, h)
        | None, Some s => ((Some s, None), config, h)
        | None, None =>
            ((None,
              Errorf ("all endpoints temporarily unavailable - Primary: " +:+
                      fmtV primaryErr +:+ ", Secondary: " +:+ fmtV secondaryErr)),
             config, h)
        end
  end.

Definition GetResilientSnapstore (config : SnapstoreConfig) (h : Host) : Resolved :=
  if HasSecondaryEndpoint config then createResilientDualSnapstore config h
  else createResilientSingleSnapstore config h.

End Resolve.

(** What the resolver may do to the configuration it is given: fill in
    an empty [Prefix], [Container] or [TempDir], and nothing else. *)
Definition defaultsOnly (c c' : SnapstoreConfig) : Prop :=
  Provider c' = Provider c ∧
  MaxParallelChunkUploads c' = MaxParallelChunkUploads c ∧
  MinChunkSize c' = MinChunkSize c ∧
  IsSource c' = IsSource c ∧
  IsSecondary c' = IsSecondary c ∧
  SecondaryProvider c' = SecondaryProvider c ∧
  SecondaryContainer c' = SecondaryContainer c ∧
  SecondaryPrefix c' = SecondaryPrefix c ∧
  SecondaryMaxParallelChunkUploads c' = SecondaryMaxParallelChunkUploads c ∧
  SecondaryMinChunkSize c' = SecondaryMinChunkSize c ∧
  (isEmpty (Prefix c) = false → Prefix c' = Prefix c) ∧
  (isEmpty (Container c) = false → Container c' = Container c) ∧
  (isEmpty (TempDir c) = false → TempDir c' = TempDir c).

(** The configuration a resolver call leaves behind. *)
Definition configAfter (r : (option Store * error) * SnapstoreConfig * Host)
    : SnapstoreConfig := snd (fst r).

(** The store and the error a resolver call returns, and the host it
    leaves behind. *)
Definition resultOf (r : (option Store * error) * SnapstoreConfig * Host)
    : option Store * error := fst (fst r).

Definition hostAfter (r : (option Store * error) * SnapstoreConfig * Host) : Host :=
  snd r.

(** A result is a store or an error: not both, not neither. *)
Definition storeXorError (r : option Store * error) : Prop :=
  match r with
  | (Some _, None) | (None, Some _) => True
  | _ => False
  end.

(** What a resolver call may do to the host: create directories. *)
Definition onlyCreatesDirs (h h' : Host) : Prop :=
  dirs h ⊆ dirs h' ∧ environ h' = environ h ∧ statFailure h' = statFailure h ∧
  mkdirFailure h' = mkdirFailure h ∧ homeDir h' = homeDir h ∧ construct h' = construct h.

(** A host on which every call succeeds: no variable set, no directory
    yet, a home directory. *)
Definition quietHost : Host :=
  mkHost (λ _, "") ∅ (λ _, None) (λ _, None) ("/home/etcd", None) (λ _, None).

(** A single-endpoint S3 configuration with no temporary directory set. *)
Definition sampleConfig : SnapstoreConfig :=
  mkConfig SnapstoreProviderS3 "primary-bucket" "etcd-backups" "" 5 67108864
           false false ProviderUnset "" "" 0 0.

(** Modelled from the spec: [HasSecondaryEndpoint] is a method of
    pkg/types, which is not among the sources.  The data model says a
    secondary block is present exactly when it holds; the block is
    present here when its provider and its container are set. *)
Definition specHasSecondaryEndpoint (c : SnapstoreConfig) : bool :=
  negb (providerIs (SecondaryProvider c) ProviderUnset) &&
  negb (isEmpty (SecondaryContainer c)).

(** Modelled from the spec: [GetSecondaryConfig] is a method of
    pkg/types, which is not among the sources.  It gives the secondary
    block (its own provider, container, prefix and chunk parameters) as a
    configuration with the secondary flag set. *)
Definition specGetSecondaryConfig (c : SnapstoreConfig) : option SnapstoreConfig :=
  if specHasSecondaryEndpoint c then
    Some (mkConfig (SecondaryProvider c) (SecondaryContainer c) (SecondaryPrefix c)
            (TempDir c) (SecondaryMaxParallelChunkUploads c) (SecondaryMinChunkSize c)
            (IsSource c) true ProviderUnset "" "" 0 0)
  else None.

(** A configuration with two S3 endpoints. *)
Definition dualConfig : SnapstoreConfig :=
  mkConfig SnapstoreProviderS3 "primary-bucket" "etcd-backups" "/tmp" 5 67108864
           false false SnapstoreProviderS3 "secondary-bucket" "etcd-backups" 3 33554432.

(** A host like [quietHost] on which building a store for the primary
    endpoint fails with the given text. *)
Definition primaryDownHost (text : string) : Host :=
  mkHost (λ _, "") ∅ (λ _, None) (λ _, None) ("/home/etcd", None)
    (λ s, match s with
          | ProviderSnapStore _ c _ => if IsSecondary c then None else Errorf text
          | _ => None
          end).

End Resolver.

(** ** Chunk-upload coordinator *)

Module ChunkUpload.

(** The struct [chunk]: declared in another file of the package; the
    coordinator reads [id], [offset] and [attempt] (a [uint]) and
    increments [attempt]. *)
Record chunk := mkChunk {
  offset : Z;
  size : Z;
  attempt : Z;
  id : Z
}.

(** The struct [chunkUploadResult]: an error and a reference to the chunk
    it is about.  Nothing else is taken to write to that chunk while the
    coordinator handles the result, so the reference is modelled by the
    chunk's value. *)
Record chunkUploadResult := mkResult {
  err : error;
  chunk_ : chunk
}.

(** A timer started by [time.AfterFunc]: its duration in nanoseconds and
    the chunk its function sends. *)
Record Timer := mkTimer {
  after : Z;
  resubmit : chunk
}.

(** The function handed to [time.AfterFunc], run when the timer fires:
    nothing is sent once [stopCh] is closed. *)
Definition fire (stopClosed : bool) (t : Timer) : option chunk :=
  if stopClosed then None else Some (resubmit t).

(** [time.Second], in nanoseconds. *)
Definition Second : Z := 1000000000.

(** What a call of the coordinator leaves behind: the value returned,
    whether [stopCh] was closed, the counter, the timers started, and the
    results still in [resCh]. *)
Record Outcome := mkOutcome {
  returned : option chunkUploadResult;
  stopClosed : bool;
  remaining : Z;
  timers : list Timer;
  unread : list chunkUploadResult
}.

(** The chunk with another attempt count. *)
Definition withAttempt (c : chunk) (a : Z) : chunk :=
  mkChunk (offset c) (size c) a (id c).

(** The results a chunk produces when every upload of it fails with [e]
    and every timer the coordinator starts for it sends it back: [k]
    failures, at attempts [attempt c], [attempt c + 1], ... *)
Fixpoint failingAttempts (e : GoError) (c : chunk) (k : nat) : list chunkUploadResult :=
  match k with
  | O => []
  | S k => mkResult (Some e) c :: failingAttempts e (withAttempt c (attempt c + 1)) k
  end.

(** The timers the coordinator starts for such a chunk at attempts [a],
    [a + 1], ..., [k] of them. *)
Fixpoint backoffTimers (c : chunk) (a : Z) (k : nat) : list Timer :=
  match k with
  | O => []
  | S k => mkTimer (2 ^ a * Second) (withAttempt c (a + 1)) :: backoffTimers c (a + 1) k
  end.

(** The time the timers of a list add up to. *)
Definition totalDelay (ts : list Timer) : Z := foldr Z.add 0 (after <$> ts).

Section Coordinator.

(** The constant [maxRetryAttempts] is declared in another file of the
    package; it is a parameter. *)
Variable maxRetryAttempts : Z.

(** The loop [for chunkRes := range resCh].  The list holds the results
    the channel delivers until it is closed. *)
Fixpoint collectLoop (resCh : list chunkUploadResult) (remainingChunks : Z)
    (started : list Timer) : Outcome :=
  match resCh with
  | [] => mkOutcome None false remainingChunks started []
  | chunkRes :: resCh =>
      match err chunkRes with
      | Some _ =>
          if attempt (chunk_ chunkRes) =? maxRetryAttempts then
            mkOutcome (Some chunkRes) true remainingChunks started resCh
          else
            let chunk := chunk_ chunkRes in
            let delayTime := wrapInt (Z.shiftl 1 (attempt chunk)) in
            let chunk :=
              mkChunk (offset chunk) (size chunk) (wrapUint (attempt chunk + 1))
                      (id chunk) in
            collectLoop resCh remainingChunks
              (started ++ [mkTimer (wrapInt (delayTime * Second)) chunk])
      | None =>
          let remainingChunks := wrapInt (remainingChunks - 1) in
          if remainingChunks =? 0 then
            mkOutcome None true remainingChunks started resCh
          else collectLoop resCh remainingChunks started
      end
  end.

Definition collectChunkUploadError (resCh : list chunkUploadResult) (noOfChunks : Z)
    : Outcome :=
  let remainingChunks := noOfChunks in
  collectLoop resCh remainingChunks [].

(** A result that makes the coordinator give up: a failure of a chunk
    whose attempt count is the maximum. *)
Definition terminal (r : chunkUploadResult) : bool :=
  match err r with
  | Some _ => attempt (chunk_ r) =? maxRetryAttempts
  | None => false
  end.

Definition succeeded (r : chunkUploadResult) : bool :=
  match err r with Some _ => false | None => true end.

(** The number of successful results in a list. *)
Definition successes (rs : list chunkUploadResult) : Z :=
  Z.of_nat (length (filter (λ r, succeeded r = true) rs)).

End Coordinator.
End ChunkUpload.

(** ** Helpers of the package *)

Module Utils.

(** [strings.Replace(s, old, new, 1)]: the first occurrence of [old] in
    [s], if there is one, is replaced by [new]. *)
Fixpoint dropChars (n : nat) (s : string) : string :=
  match n, s with
  | O, _ => s
  | S n, String _ t => dropChars n t
  | S _, EmptyString => EmptyString
  end.

Fixpoint Replace1 (s old new : string) : string :=
  if HasPrefix s old then new +:+ dropChars (String.length old) s
  else match s with
       | EmptyString => EmptyString
       | String c t => String c (Replace1 t old new)
       end.

(** [errors.Join] of two errors: nil when both are nil, otherwise an
    error whose text is the texts of the non-nil ones, one per line. *)
Definition Join (a b : error) : error :=
  match a, b with
  | None, None => None
  | Some x, None => Errorf (errText x)
  | None, Some y => Errorf (errText y)
  | Some x, Some y => Errorf (errText x +:+ String (ascii_of_nat 10) "" +:+ errText y)
  end.

(** What [os.Stat] tells about a file. *)
Record FileInfo := mkFileInfo {
  Name : string;
  IsDir : bool;
  ModTime : Z
}.

(** [time.Time{}], the zero time; a time is counted from it. *)
Definition zeroTime : Z := 0.

Section Helpers.

(** The constants [backupVersionV1] and [backupVersionV2] are declared in
    another file of the package; the text of the error [strconv.ParseBool]
    returns is the library's.  They are parameters. *)
Variable backupVersionV1 backupVersionV2 : string.
Variable syntaxError : string → GoError.

(** [strconv.ParseBool]. *)
Definition ParseBool (str : string) : bool * error :=
  if String.eqb str "1" || String.eqb str "t" || String.eqb str "T" ||
     String.eqb str "TRUE" || String.eqb str "true" || String.eqb str "True"
  then (true, None)
  else if String.eqb str "0" || String.eqb str "f" || String.eqb str "F" ||
          String.eqb str "FALSE" || String.eqb str "false" || String.eqb str "False"
  then (false, None)
  else (false, Some (syntaxError str)).

Definition GetEnvVarOrError (h : Resolver.Host) (varName : string) : string * error :=
  let value := Resolver.Getenv h varName in
  if Resolver.isEmpty value then
    (value, Errorf ("missing environment variable " +:+ varName))
  else (value, None).

Definition GetEnvVarToBool (h : Resolver.Host) (varName : string) : bool * error :=
  match GetEnvVarOrError h varName with
  | (_, Some e) => (false, Some e)
  | (value, None) => ParseBool value
  end.

Definition getEnvPrefixString (isSource : bool) : string :=
  if isSource then Resolver.sourcePrefixString else "".

Definition getEnvPrefixStringForConfig (config : Resolver.SnapstoreConfig) : string :=
  if Resolver.IsSource config then Resolver.sourcePrefixString
  else if Resolver.IsSecondary config then Resolver.secondaryPrefixString
  else "".

Definition adaptPrefix (snap : Snapshot) (snapstorePrefix : string) : string :=
  if Contains (Prefix snap) ("/" +:+ backupVersionV1) &&
     Contains snapstorePrefix ("/" +:+ backupVersionV2)
  then Replace1 snapstorePrefix ("/" +:+ backupVersionV2) ("/" +:+ backupVersionV1)
  else snapstorePrefix.

(** The loop of [getLatestCredentialsModifiedTime]; [stat] is [os.Stat] on
    the file system the call runs on. *)
Fixpoint latestLoop (stat : string → FileInfo + GoError) (credentialFiles : list string)
    (latestModifiedTime : Z) : Z * error :=
  match credentialFiles with
  | [] => (latestModifiedTime, None)
  | filename :: credentialFiles =>
      match stat filename with
      | inr e => (zeroTime, Some e)
      | inl fileInfo =>
          if IsDir fileInfo then
            (zeroTime,
             Errorf ("a directory " +:+ Name fileInfo +:+
                     " found in place of a credential file"))
          else
            let fileModifiedTime := ModTime fileInfo in
            latestLoop stat credentialFiles
              (if latestModifiedTime <? fileModifiedTime then fileModifiedTime
               else latestModifiedTime)
      end
  end.

Definition getLatestCredentialsModifiedTime (stat : string → FileInfo + GoError)
    (credentialFiles : list string) : Z * error :=
  latestLoop stat credentialFiles zeroTime.

(** [writeSnapshotToTempFile], given what [os.CreateTemp], [io.Copy] (run
    only when the file was created) and the deferred [rc.Close] return.
    The temporary file is modelled by its name. *)
Definition writeSnapshotToTempFile (created : option string * error)
    (copied : Z * error) (closed : error) : option string * Z * error :=
  let '(tempFile, written, err) :=
    match created with
    | (tempFile, Some e) =>
        (tempFile, 0, Errorf ("failed to create snapshot tempfile: " +:+ errText e))
    | (tempFile, None) =>
        match copied with
        | (written, Some e) =>
            (tempFile, written,
             Errorf ("failed to save snapshot to tempFile: " +:+ errText e))
        | (written, None) => (tempFile, written, None)
        end
    end in
  match closed with
  | Some e1 =>
      (tempFile, written,
       Join err (Errorf ("failed to close snapshot reader: " +:+ errText e1)))
  | None => (tempFile, written, err)
  end.


(** [filepath.Ext] and [filepath.Join] are the library's; they are
    parameters. *)
Variable Ext : string → string.
Variable PathJoin : string → string → string.




End Helpers.
End Utils.

(** * Properties *)

(** ** Circuit breaker and failover of the dual store *)

Section DualProps.
Context {P Q : Type} `{SnapStore P} `{SnapStore Q}.
Variable Less : Snapshot → Snapshot → bool.

Abbreviation DS := (DualSnapStore P Q).

Lemma wrapInt_small z : - 2 ^ 63 <= z < 2 ^ 63 → wrapInt z = z.
Proof.
  intros Hz. unfold wrapInt.
  rewrite Z.mod_small; lia.
Qed.

Lemma saveSecondary_frame snap data r (ds : DS) :
  let ds' := snd (Dual.saveSecondary snap data r ds) in
  primary ds' = primary ds ∧ primaryFailed ds' = primaryFailed ds ∧
  primaryFailCount ds' = primaryFailCount ds.
Proof.
  unfold Dual.saveSecondary.
  destruct (storeSave snap (NopCloser data) (secondary ds)) as [[e|] q]; simpl; auto.
Qed.

Lemma fetchSecondary_frame snap (ds : DS) :
  let ds' := snd (Dual.fetchSecondary snap ds) in
  primary ds' = primary ds ∧ primaryFailed ds' = primaryFailed ds ∧
  primaryFailCount ds' = primaryFailCount ds.
Proof.
  unfold Dual.fetchSecondary.
  destruct (storeFetch snap (secondary ds)) as [[rc [e|]] q]; simpl; auto.
Qed.

Lemma List_frame includeAll selP selQ (ds : DS) :
  let ds' := snd (Dual.List Less includeAll selP selQ ds) in
  primaryFailed ds' = primaryFailed ds ∧ primaryFailCount ds' = primaryFailCount ds.
Proof.
  unfold Dual.List.
  destruct (storeList includeAll (primary ds)) as [[sp ep] p].
  destruct (storeList includeAll (secondary ds)) as [[sq eq] q].
  destruct (Dual.collect selP sp ep) as [ps [pe|]];
    destruct (Dual.collect selQ sq eq) as [qs [qe|]]; simpl; auto.
  destruct (_ && _); simpl; auto.
Qed.

Lemma Delete_frame snap (ds : DS) :
  let ds' := snd (Dual.Delete snap ds) in
  primaryFailed ds' = primaryFailed ds ∧ primaryFailCount ds' = primaryFailCount ds.
Proof.
  unfold Dual.Delete.
  destruct (storeDelete snap (primary ds)) as [[ep|] p];
    destruct (storeDelete snap (secondary ds)) as [[eq|] q]; simpl; auto.
Qed.

(** A call that finds the primary disabled leaves the primary store and
    the breaker alone when it is a [Save] or a [Fetch]. *)
Lemma exec_disabled op (ds : DS) :
  Dual.isPrimaryDisabled ds = true →
  let ds' := Dual.exec Less op ds in
  primaryFailed ds' = primaryFailed ds ∧ primaryFailCount ds' = primaryFailCount ds ∧
  match op with
  | Dual.OpSave _ _ | Dual.OpFetch _ => primary ds' = primary ds
  | _ => True
  end.
Proof.
  intros Hd. destruct op as [snap rc|snap|b selP selQ|snap]; simpl.
  - unfold Dual.Save, ReadAll. destruct (rcErr rc); simpl; [auto|].
    rewrite Hd. simpl.
    destruct (saveSecondary_frame snap (rcData rc)
      {| Endpoint := "primary"; Success := false;
         Error := Errorf "primary endpoint disabled due to repeated failures" |} ds)
      as (? & ? & ?); auto.
  - unfold Dual.Fetch. rewrite Hd. simpl.
    destruct (fetchSecondary_frame snap ds) as (? & ? & ?); auto.
  - destruct (List_frame b selP selQ ds); auto.
  - destruct (Delete_frame snap ds); auto.
Qed.

Lemma isPrimaryDisabled_reset (ds : DS) :
  Dual.isPrimaryDisabled (Dual.resetPrimaryFailureState ds) = false.
Proof. reflexivity. Qed.

(** [Save] when the content is read, the primary is tried and accepts
    the snapshot. *)
Lemma Save_primary_success snap rc (ds : DS) p' :
  rcErr rc = None →
  Dual.isPrimaryDisabled ds = false →
  storeSave snap (NopCloser (rcData rc)) (primary ds) = (None, p') →
  Dual.Save snap rc ds = (None, mkDual p' (secondary ds) false 0).
Proof.
  intros Hrc Hd Hs. unfold Dual.Save, ReadAll.
  rewrite Hrc, Hd. simpl. rewrite Hs. reflexivity.
Qed.

(** [Fetch] when the primary is tried and fails, and the secondary fails
    as well: the text of the error that comes back. *)
Lemma Fetch_both_fail snap (ds : DS) rc1 e1 p' rc2 e2 q' :
  Dual.isPrimaryDisabled ds = false →
  storeFetch snap (primary ds) = ((rc1, Some e1), p') →
  storeFetch snap (secondary ds) = ((rc2, Some e2), q') →
  fst (Dual.Fetch snap ds) =
    (None, Errorf ("failed to fetch snapshot " +:+ SnapName snap +:+
                   " from both endpoints - Primary: disabled due to failures" +:+
                   ", Secondary: " +:+ errText e2)).
Proof.
  intros Hd Hp Hq. unfold Dual.Fetch. rewrite Hd. simpl. rewrite Hp.
  unfold Dual.fetchSecondary.
  replace (secondary (Dual.recordPrimaryFailure (Some e1) (Dual.withPrimary p' ds)))
    with (secondary ds)
    by (unfold Dual.recordPrimaryFailure; destruct (isTransientError _); reflexivity).
  rewrite Hq. reflexivity.
Qed.

Lemma List_primary includeAll selP selQ (ds : DS) :
  primary (snd (Dual.List Less includeAll selP selQ ds)) =
    snd (storeList includeAll (primary ds)).
Proof.
  unfold Dual.List.
  destruct (storeList includeAll (primary ds)) as [[sp ep] p].
  destruct (storeList includeAll (secondary ds)) as [[sq eq] q].
  destruct (Dual.collect selP sp ep) as [ps [pe|]];
    destruct (Dual.collect selQ sq eq) as [qs [qe|]]; simpl; auto.
  destruct (_ && _); simpl; auto.
Qed.

Lemma Delete_primary snap (ds : DS) :
  primary (snd (Dual.Delete snap ds)) = snd (storeDelete snap (primary ds)).
Proof.
  unfold Dual.Delete.
  destruct (storeDelete snap (primary ds)) as [[ep|] p];
    destruct (storeDelete snap (secondary ds)) as [[eq|] q]; simpl; auto.
Qed.

Lemma isPrimaryDisabled_iff (ds : DS) :
  Dual.isPrimaryDisabled ds = true ↔ primaryFailed ds = true ∧ 3 <= primaryFailCount ds.
Proof.
  unfold Dual.isPrimaryDisabled. rewrite andb_true_iff, Z.leb_le. tauto.
Qed.

(** A [Save] or [Fetch] that tries the primary and gets an error from it
    passes that error to [recordPrimaryFailure]; the rest of the call
    leaves the breaker as [recordPrimaryFailure] set it. *)
Lemma exec_primary_failure op (ds : DS) e :
  Dual.consultsBreaker op = true →
  Dual.isPrimaryDisabled ds = false →
  Dual.primaryAnswer op ds = Some e →
  let ds' := Dual.exec Less op ds in
  let rec := Dual.recordPrimaryFailure (Some e) ds in
  primaryFailed ds' = primaryFailed rec ∧ primaryFailCount ds' = primaryFailCount rec.
Proof.
  intros Hc Hd Ha. destruct op as [snap rc|snap|b selP selQ|snap]; simpl in *; try discriminate.
  - unfold Dual.Save, ReadAll. destruct (rcErr rc); [discriminate|].
    rewrite Hd. simpl.
    destruct (storeSave snap (NopCloser (rcData rc)) (primary ds)) as [e' p].
    simpl in Ha. subst e'.
    match goal with |- context [Dual.saveSecondary ?a ?b ?c ?d] =>
      destruct (saveSecondary_frame a b c d) as (_ & -> & ->) end.
    unfold Dual.recordPrimaryFailure. destruct (isTransientError (Some e)); auto.
  - unfold Dual.Fetch. rewrite Hd. simpl.
    destruct (storeFetch snap (primary ds)) as [[rc e'] p].
    simpl in Ha. subst e'.
    match goal with |- context [Dual.fetchSecondary ?a ?d] =>
      destruct (fetchSecondary_frame a d) as (_ & -> & ->) end.
    unfold Dual.recordPrimaryFailure. destruct (isTransientError (Some e)); auto.
Qed.

(** One more transient failure of the primary: the store was disabled
    already and stays as it is, or the flag is set and the counter goes up
    by one. *)
Lemma exec_transient_failure op (ds : DS) :
  Dual.consultsBreaker op = true →
  isTransientError (Dual.primaryAnswer op ds) = true →
  0 <= primaryFailCount ds < 2 ^ 62 →
  let ds' := Dual.exec Less op ds in
  (Dual.isPrimaryDisabled ds = true ∧ primaryFailed ds' = primaryFailed ds ∧
   primaryFailCount ds' = primaryFailCount ds) ∨
  (Dual.isPrimaryDisabled ds = false ∧ primaryFailed ds' = true ∧
   primaryFailCount ds' = primaryFailCount ds + 1).
Proof.
  intros Hc Ht Hr. destruct (Dual.isPrimaryDisabled ds) eqn:Hd.
  - left. destruct (exec_disabled op ds Hd) as (? & ? & _). auto.
  - right. destruct (Dual.primaryAnswer op ds) as [e|] eqn:Ha; [|discriminate].
    destruct (exec_primary_failure op ds e Hc Hd Ha) as [-> ->].
    unfold Dual.recordPrimaryFailure. rewrite Ht. simpl.
    rewrite wrapInt_small by lia. auto.
Qed.

(** After [n] transient failures in a row the primary is disabled or the
    counter is at least [n]. *)
Lemma transient_failure_counts op (ds : DS) n :
  0 <= n <= 3 →
  Dual.consultsBreaker op = true →
  isTransientError (Dual.primaryAnswer op ds) = true →
  Dual.isPrimaryDisabled ds = true ∨
    (n <= primaryFailCount ds <= n + 3 ∧ (0 < n → primaryFailed ds = true)) →
  Dual.isPrimaryDisabled (Dual.exec Less op ds) = true ∨
    (n + 1 <= primaryFailCount (Dual.exec Less op ds) <= n + 4 ∧
     primaryFailed (Dual.exec Less op ds) = true).
Proof.
  intros Hn Hc Ht [Hd|[Hr Hf]].
  - left. destruct (exec_disabled op ds Hd) as (Hf & Hk & _).
    unfold Dual.isPrimaryDisabled in *. rewrite Hf, Hk. exact Hd.
  - destruct (exec_transient_failure op ds Hc Ht) as [(Hd & Hf' & Hk)|(Hd & Hf' & Hk)];
      [lia| |].
    + left. unfold Dual.isPrimaryDisabled in *. rewrite Hf', Hk. exact Hd.
    + right. split; [lia|exact Hf'].
Qed.

Lemma exec_primary_success op (ds : DS) :
  Dual.consultsBreaker op = true →
  Dual.isPrimaryDisabled ds = false →
  Dual.primaryAnswer op ds = None →
  primaryFailed (Dual.exec Less op ds) = false ∧
  primaryFailCount (Dual.exec Less op ds) = 0.
Proof.
  intros Hc Hd Ha. destruct op as [snap rc|snap|b selP selQ|snap]; simpl in *; try discriminate.
  - unfold Dual.Save, ReadAll. destruct (rcErr rc); [discriminate|].
    rewrite Hd. simpl.
    destruct (storeSave snap (NopCloser (rcData rc)) (primary ds)) as [e' p].
    simpl in Ha. subst e'. auto.
  - unfold Dual.Fetch. rewrite Hd. simpl.
    destruct (storeFetch snap (primary ds)) as [[rc e'] p].
    simpl in Ha. subst e'. auto.
Qed.

Lemma exec_no_consult op (ds : DS) :
  Dual.consultsBreaker op = false →
  primaryFailed (Dual.exec Less op ds) = primaryFailed ds ∧
  primaryFailCount (Dual.exec Less op ds) = primaryFailCount ds.
Proof.
  intros Hc. destruct op as [snap rc|snap|b selP selQ|snap]; simpl in *; try discriminate.
  - unfold Dual.Save, ReadAll. destruct (rcErr rc); [auto|discriminate].
  - apply List_frame.
  - apply Delete_frame.
Qed.

Lemma exec_breakerInv op (ds : DS) :
  Dual.breakerInv ds → Dual.breakerInv (Dual.exec Less op ds).
Proof.
  unfold Dual.breakerInv, Dual.counterInRange. intros [Hr Hz].
  destruct (Dual.consultsBreaker op) eqn:Hc.
  - destruct (Dual.isPrimaryDisabled ds) eqn:Hd.
    + destruct (exec_disabled op ds Hd) as (-> & -> & _). auto.
    + destruct (Dual.primaryAnswer op ds) as [e|] eqn:Ha.
      * destruct (exec_primary_failure op ds e Hc Hd Ha) as [-> ->].
        unfold Dual.recordPrimaryFailure.
        destruct (isTransientError (Some e)); simpl; [|split; [lia|auto]].
        assert (primaryFailCount ds < 3).
        { unfold Dual.isPrimaryDisabled in Hd.
          destruct (primaryFailed ds); [|rewrite Hz by reflexivity; lia].
          simpl in Hd. apply Z.leb_gt in Hd. exact Hd. }
        rewrite wrapInt_small by lia. split; [lia|discriminate].
      * destruct (exec_primary_success op ds Hc Hd Ha) as [-> ->].
        split; [lia|auto].
  - destruct (exec_no_consult op ds Hc) as [-> ->]. auto.
Qed.

(** Every store reached from [NewDualSnapStore] by calls made one after
    the other has its counter between 0 and 3. *)
Lemma run_counterInRange ops (p : P) (q : Q) :
  Dual.counterInRange (Dual.run Less ops (Dual.NewDualSnapStore p q)).
Proof.
  assert (Hinv : ∀ ds : DS, Dual.breakerInv ds → Dual.breakerInv (Dual.run Less ops ds)).
  { clear p q. induction ops as [|op ops IH]; intros ds Hi; simpl; [exact Hi|].
    apply IH, exec_breakerInv, Hi. }
  apply Hinv. split; [unfold Dual.counterInRange; simpl; lia|reflexivity].
Qed.

End DualProps.

Section DualClaims.
Context {P Q : Type} `{SnapStore P} `{SnapStore Q}.
Variable Less : Snapshot → Snapshot → bool.

(** C6.  When the content is read, the primary is not disabled and the
    primary's [Save] succeeds, the dual [Save] returns nil, the secondary
    store is not called (its state and its count of [Save] calls are the
    ones before the call, while the primary's count went up by one), and
    the breaker is reset: flag off, counter zero. *)
Theorem Save_primary_success_skips_secondary
    (snap : Snapshot) (rc : ReadCloser) (ds : DualSnapStore (Spy P) (Spy Q)) :
  rcErr rc = None →
  Dual.isPrimaryDisabled ds = false →
  fst (storeSave snap (NopCloser (rcData rc)) (spied (primary ds))) = None →
  fst (Dual.Save snap rc ds) = None ∧
  secondary (snd (Dual.Save snap rc ds)) = secondary ds ∧
  saveCalls (secondary (snd (Dual.Save snap rc ds))) = saveCalls (secondary ds) ∧
  saveCalls (primary (snd (Dual.Save snap rc ds))) = S (saveCalls (primary ds)) ∧
  primaryFailed (snd (Dual.Save snap rc ds)) = false ∧
  primaryFailCount (snd (Dual.Save snap rc ds)) = 0 ∧
  Dual.isPrimaryDisabled (snd (Dual.Save snap rc ds)) = false.
Proof.
  intros Hrc Hd Hs.
  destruct (storeSave snap (NopCloser (rcData rc)) (spied (primary ds)))
    as [e p'] eqn:Hp. simpl in Hs. subst e.
  rewrite (Save_primary_success snap rc ds
    (mkSpy p' (fetchCalls (primary ds)) (listCalls (primary ds))
       (S (saveCalls (primary ds))) (deleteCalls (primary ds))) Hrc Hd).
  - simpl. repeat split; reflexivity.
  - simpl. rewrite Hp. reflexivity.
Qed.

(** C10.  When reading the content fails, [Save] returns an error that
    carries the read error, and the dual store after the call is the one
    before it: neither store was called (their states, call counts
    included, are unchanged) and the breaker flag and counter are
    untouched. *)
Theorem Save_read_failure_changes_nothing
    (snap : Snapshot) (rc : ReadCloser) (ds : DualSnapStore (Spy P) (Spy Q))
    (e : GoError) :
  rcErr rc = Some e →
  Dual.Save snap rc ds =
    (Errorf ("failed to read snapshot data: " +:+ errText e), ds) ∧
  saveCalls (primary (snd (Dual.Save snap rc ds))) = saveCalls (primary ds) ∧
  saveCalls (secondary (snd (Dual.Save snap rc ds))) = saveCalls (secondary ds) ∧
  primaryFailed (snd (Dual.Save snap rc ds)) = primaryFailed ds ∧
  primaryFailCount (snd (Dual.Save snap rc ds)) = primaryFailCount ds.
Proof.
  intros Hrc. unfold Dual.Save, ReadAll. rewrite Hrc. simpl. auto.
Qed.

(** C1 (what the code does).  When the primary is tried and fails with
    [e1] and the secondary fails with [e2], the error [Fetch] returns has a
    text made of the snapshot name, the fixed words "disabled due to
    failures" in the place of the primary's cause, and the text of [e2]:
    the text does not depend on [e1]. *)
Theorem Fetch_both_fail_reports_fixed_primary_text
    (snap : Snapshot) (ds : DualSnapStore P Q) (rc1 rc2 : option ReadCloser)
    (e1 e2 : GoError)
    (p' : P) (q' : Q) :
  Dual.isPrimaryDisabled ds = false →
  storeFetch snap (primary ds) = ((rc1, Some e1), p') →
  storeFetch snap (secondary ds) = ((rc2, Some e2), q') →
  snd (fst (Dual.Fetch snap ds)) =
    Errorf ("failed to fetch snapshot " +:+ SnapName snap +:+
            " from both endpoints - Primary: disabled due to failures, Secondary: " +:+
            errText e2).
Proof.
  intros Hd Hp Hq.
  rewrite (Fetch_both_fail snap ds rc1 e1 p' rc2 e2 q' Hd Hp Hq). simpl.
  reflexivity.
Qed.

Lemma Spy_storeList_calls {T : Type} `{SnapStore T} b (s : Spy T) :
  saveCalls (snd (storeList b s)) = saveCalls s ∧
  fetchCalls (snd (storeList b s)) = fetchCalls s.
Proof. simpl. destruct (storeList b (spied s)). auto. Qed.

Lemma Spy_storeDelete_calls {T : Type} `{SnapStore T} snap (s : Spy T) :
  saveCalls (snd (storeDelete snap s)) = saveCalls s ∧
  fetchCalls (snd (storeDelete snap s)) = fetchCalls s.
Proof. simpl. destruct (storeDelete snap (spied s)). auto. Qed.

(** One call on a store whose primary is disabled. *)
Lemma exec_disabled_spy op (ds : DualSnapStore (Spy P) (Spy Q)) :
  Dual.isPrimaryDisabled ds = true →
  Dual.isPrimaryDisabled (Dual.exec Less op ds) = true ∧
  primaryFailed (Dual.exec Less op ds) = primaryFailed ds ∧
  primaryFailCount (Dual.exec Less op ds) = primaryFailCount ds ∧
  saveCalls (primary (Dual.exec Less op ds)) = saveCalls (primary ds) ∧
  fetchCalls (primary (Dual.exec Less op ds)) = fetchCalls (primary ds).
Proof.
  intros Hd. destruct (exec_disabled Less op ds Hd) as (Hf & Hc & Hp).
  split; [unfold Dual.isPrimaryDisabled in *; rewrite Hf, Hc; exact Hd|].
  split; [exact Hf|]. split; [exact Hc|].
  destruct op as [snap rc|snap|b selP selQ|snap]; simpl in *.
  - rewrite Hp. auto.
  - rewrite Hp. auto.
  - rewrite List_primary. apply Spy_storeList_calls.
  - rewrite Delete_primary. apply Spy_storeDelete_calls.
Qed.

(** C3.  Once the primary is disabled, it is disabled after any sequence
    of [Save], [Fetch], [List] and [Delete] calls made one after the
    other: the breaker flag and counter keep their values, and the
    primary's [Save] and [Fetch] are never called (their call counts do not
    move). *)
Theorem disabled_primary_stays_disabled
    (ops : list Dual.Op) (ds : DualSnapStore (Spy P) (Spy Q)) :
  Dual.isPrimaryDisabled ds = true →
  Dual.isPrimaryDisabled (Dual.run Less ops ds) = true ∧
  primaryFailed (Dual.run Less ops ds) = primaryFailed ds ∧
  primaryFailCount (Dual.run Less ops ds) = primaryFailCount ds ∧
  saveCalls (primary (Dual.run Less ops ds)) = saveCalls (primary ds) ∧
  fetchCalls (primary (Dual.run Less ops ds)) = fetchCalls (primary ds).
Proof.
  revert ds. induction ops as [|op ops IH]; intros ds Hd; simpl.
  - auto.
  - destruct (exec_disabled_spy op ds Hd) as (Hd' & Hf & Hc & Hs & Hg).
    destruct (IH _ Hd') as (? & ? & ? & ? & ?).
    repeat split; congruence.
Qed.

(** C2.  From a store whose counter is in the range a store made by
    [NewDualSnapStore] keeps it in, three [Save] or [Fetch] calls in a row
    at each of which the primary answers with a transient error leave the
    primary disabled, and a further [Save] or [Fetch] does not call the
    primary (its state and call counts stay).  A non-transient primary
    failure, when recorded, sets the counter to zero, leaves the flag as
    it was and leaves the primary enabled; so does a [Save] or [Fetch] on
    an enabled store at which the primary fails that way. *)
Theorem three_transient_failures_disable_primary
    (ds : DualSnapStore (Spy P) (Spy Q)) (o1 o2 o3 o4 : Dual.Op) :
  Dual.counterInRange ds →
  Dual.consultsBreaker o1 = true → Dual.consultsBreaker o2 = true →
  Dual.consultsBreaker o3 = true → Dual.consultsBreaker o4 = true →
  isTransientError (Dual.primaryAnswer o1 ds) = true →
  isTransientError (Dual.primaryAnswer o2 (Dual.run Less [o1] ds)) = true →
  isTransientError (Dual.primaryAnswer o3 (Dual.run Less [o1; o2] ds)) = true →
  (Dual.isPrimaryDisabled (Dual.run Less [o1; o2; o3] ds) = true ∧
   primary (Dual.run Less [o1; o2; o3; o4] ds) = primary (Dual.run Less [o1; o2; o3] ds) ∧
   saveCalls (primary (Dual.run Less [o1; o2; o3; o4] ds)) =
     saveCalls (primary (Dual.run Less [o1; o2; o3] ds)) ∧
   fetchCalls (primary (Dual.run Less [o1; o2; o3; o4] ds)) =
     fetchCalls (primary (Dual.run Less [o1; o2; o3] ds))) ∧
  (∀ (ds0 : DualSnapStore (Spy P) (Spy Q)) (e : GoError),
     isTransientError (Some e) = false →
     primaryFailCount (Dual.recordPrimaryFailure (Some e) ds0) = 0 ∧
     primaryFailed (Dual.recordPrimaryFailure (Some e) ds0) = primaryFailed ds0 ∧
     Dual.isPrimaryDisabled (Dual.recordPrimaryFailure (Some e) ds0) = false) ∧
  (∀ (ds0 : DualSnapStore (Spy P) (Spy Q)) (op : Dual.Op) (e : GoError),
     Dual.consultsBreaker op = true →
     Dual.isPrimaryDisabled ds0 = false →
     Dual.primaryAnswer op ds0 = Some e →
     isTransientError (Some e) = false →
     primaryFailCount (Dual.exec Less op ds0) = 0 ∧
     Dual.isPrimaryDisabled (Dual.exec Less op ds0) = false).
Proof.
  intros Hr H1 H2 H3 H4 T1 T2 T3. cbn [Dual.run] in *.
  unfold Dual.counterInRange in Hr.
  split; [|split].
  - assert (Hd : Dual.isPrimaryDisabled
                   (Dual.exec Less o3 (Dual.exec Less o2 (Dual.exec Less o1 ds))) = true).
    { pose proof (transient_failure_counts Less o1 ds 0 ltac:(lia) H1 T1
                    ltac:(right; split; [lia|lia])) as S1.
      pose proof (transient_failure_counts Less o2 _ 1 ltac:(lia) H2 T2
                    ltac:(destruct S1 as [?|[? ?]]; [left; assumption|right; split; [lia|auto]])) as S2.
      pose proof (transient_failure_counts Less o3 _ 2 ltac:(lia) H3 T3
                    ltac:(destruct S2 as [?|[? ?]]; [left; assumption|right; split; [lia|auto]])) as S3.
      destruct S3 as [?|[? ?]]; [assumption|].
      apply isPrimaryDisabled_iff. split; [assumption|lia]. }
    split; [exact Hd|].
    destruct (exec_disabled Less o4 _ Hd) as (_ & _ & Hp).
    assert (Hp' : primary (Dual.exec Less o4
                (Dual.exec Less o3 (Dual.exec Less o2 (Dual.exec Less o1 ds)))) =
              primary (Dual.exec Less o3 (Dual.exec Less o2 (Dual.exec Less o1 ds)))).
    { destruct o4; simpl in *; try discriminate; exact Hp. }
    rewrite Hp'. auto.
  - intros ds0 e He. unfold Dual.recordPrimaryFailure, Dual.isPrimaryDisabled.
    rewrite He. simpl. rewrite andb_false_r. auto.
  - intros ds0 op e Hc Hd Ha He.
    destruct (exec_primary_failure Less op ds0 e Hc Hd Ha) as [Hf Hn].
    unfold Dual.isPrimaryDisabled. rewrite Hf, Hn.
    unfold Dual.recordPrimaryFailure. rewrite He. simpl.
    rewrite andb_false_r. auto.
Qed.

End DualClaims.

(** ** The merge of two listings *)

Section MergeProps.
Variable Less : Snapshot → Snapshot → bool.

Lemma pairOf_snapKey a b : Dual.pairOf a = Dual.pairOf b → Dual.snapKey a = Dual.snapKey b.
Proof. unfold Dual.pairOf, Dual.snapKey. intros [= -> ->]. reflexivity. Qed.

(** After the first loop a key holds the last primary entry with that key. *)
Lemma lookup_foldl_addPrimary (snaps : SnapList) (m : gmap string Snapshot) k :
  foldl Dual.addPrimary m snaps !! k =
    match last (Dual.withKey k snaps) with
    | Some s => Some s
    | None => m !! k
    end.
Proof.
  revert m. induction snaps as [|x snaps IH]; intros m; simpl; [reflexivity|].
  rewrite IH. unfold Dual.withKey, Dual.addPrimary. rewrite filter_cons.
  destruct (decide (Dual.snapKey x = k)) as [->|Hne].
  - rewrite last_cons, lookup_insert_eq.
    destruct (last (filter _ snaps)); reflexivity.
  - rewrite lookup_insert_ne by exact Hne. reflexivity.
Qed.

(** The second loop fills a free key with the first secondary entry that
    has it and leaves a taken key alone. *)
Lemma lookup_foldl_addSecondary (snaps : SnapList) (m : gmap string Snapshot) k :
  foldl Dual.addSecondary m snaps !! k =
    match m !! k with
    | Some s => Some s
    | None => head (Dual.withKey k snaps)
    end.
Proof.
  revert m. induction snaps as [|x snaps IH]; intros m; cbn [foldl].
  - destruct (m !! k); reflexivity.
  - rewrite IH. unfold Dual.withKey, Dual.addSecondary. rewrite filter_cons.
    destruct (m !! Dual.snapKey x) as [y|] eqn:Hx.
    + destruct (decide (Dual.snapKey x = k)) as [<-|Hne]; [rewrite Hx|]; reflexivity.
    + destruct (decide (Dual.snapKey x = k)) as [<-|Hne].
      * rewrite lookup_insert_eq, Hx. reflexivity.
      * rewrite lookup_insert_ne by exact Hne. reflexivity.
Qed.

Lemma lookup_snapMapOf primarySnaps secondarySnaps k :
  Dual.snapMapOf primarySnaps secondarySnaps !! k =
    match last (Dual.withKey k primarySnaps) with
    | Some s => Some s
    | None => head (Dual.withKey k secondarySnaps)
    end.
Proof.
  unfold Dual.snapMapOf.
  rewrite lookup_foldl_addSecondary, lookup_foldl_addPrimary, lookup_empty.
  destruct (last _); reflexivity.
Qed.

Lemma withKey_elem k snaps x : x ∈ Dual.withKey k snaps → x ∈ snaps ∧ Dual.snapKey x = k.
Proof. unfold Dual.withKey. rewrite list_elem_of_filter. tauto. Qed.

(** Every entry of the map sits under its own key. *)
Lemma snapMapOf_key primarySnaps secondarySnaps k x :
  Dual.snapMapOf primarySnaps secondarySnaps !! k = Some x →
  Dual.snapKey x = k ∧ x ∈ primarySnaps ++ secondarySnaps.
Proof.
  rewrite lookup_snapMapOf. rewrite elem_of_app.
  destruct (last (Dual.withKey k primarySnaps)) as [y|] eqn:Hl.
  - intros [= ->]. apply last_Some_elem_of, withKey_elem in Hl. tauto.
  - intros Hh. apply head_Some_elem_of, withKey_elem in Hh. tauto.
Qed.

Lemma mergeSnapshots_Permutation primarySnaps secondarySnaps :
  Dual.mergeSnapshots Less primarySnaps secondarySnaps ≡ₚ
    (map_to_list (Dual.snapMapOf primarySnaps secondarySnaps)).*2.
Proof. unfold Dual.mergeSnapshots. apply merge_sort_Permutation. Qed.

(** An entry is in the merge exactly when the map holds it under its key. *)
Lemma elem_of_mergeSnapshots primarySnaps secondarySnaps x :
  x ∈ Dual.mergeSnapshots Less primarySnaps secondarySnaps ↔
  Dual.snapMapOf primarySnaps secondarySnaps !! Dual.snapKey x = Some x.
Proof.
  rewrite mergeSnapshots_Permutation, list_elem_of_fmap. split.
  - intros ([k y] & -> & Hin). apply elem_of_map_to_list in Hin. simpl.
    destruct (snapMapOf_key _ _ _ _ Hin) as [-> _]. exact Hin.
  - intros Hl. exists (Dual.snapKey x, x). split; [reflexivity|].
    apply elem_of_map_to_list. exact Hl.
Qed.

(** The keys of the merged entries are pairwise distinct. *)
Lemma mergeSnapshots_NoDup_keys primarySnaps secondarySnaps :
  NoDup (Dual.snapKey <$> Dual.mergeSnapshots Less primarySnaps secondarySnaps).
Proof.
  rewrite mergeSnapshots_Permutation.
  set (M := Dual.snapMapOf primarySnaps secondarySnaps).
  assert (Hk : Dual.snapKey <$> (map_to_list M).*2 = (map_to_list M).*1).
  { assert (Hall : Forall (λ kv, Dual.snapKey kv.2 = kv.1) (map_to_list M)).
    { apply Forall_forall. intros [k y] Hin. apply elem_of_map_to_list in Hin.
      simpl. apply (snapMapOf_key _ _ _ _ Hin). }
    induction Hall as [|[k y] l Hky _ IH]; [reflexivity|].
    rewrite !fmap_cons. simpl in Hky |- *. rewrite Hky. f_equal. exact IH. }
  rewrite Hk. apply NoDup_fst_map_to_list.
Qed.

Lemma filter_ext_elem_of {A} (P1 P2 : A → Prop)
    `{∀ x, Decision (P1 x)} `{∀ x, Decision (P2 x)} (l : list A) :
  (∀ a, a ∈ l → P1 a ↔ P2 a) → filter P1 l = filter P2 l.
Proof.
  induction l as [|a l IH]; intros Hl; [reflexivity|].
  rewrite !filter_cons.
  rewrite IH by (intros b Hb; apply Hl; right; exact Hb).
  pose proof (Hl a ltac:(left)) as Ha.
  destruct (decide (P1 a)), (decide (P2 a)); tauto.
Qed.

(** With unambiguous keys, the entries that share a key with an entry of
    the input are the entries that share its pair. *)
Lemma withKey_withPairOf primarySnaps secondarySnaps x snaps :
  Dual.keysUnambiguous primarySnaps secondarySnaps →
  x ∈ primarySnaps ++ secondarySnaps →
  snaps ⊆ primarySnaps ++ secondarySnaps →
  Dual.withKey (Dual.snapKey x) snaps = Dual.withPairOf x snaps.
Proof.
  intros HU Hx Hsub. unfold Dual.withKey, Dual.withPairOf.
  apply filter_ext_elem_of. intros a Ha. split.
  - unfold Dual.keysUnambiguous in HU. rewrite Forall_forall in HU.
    specialize (HU a (Hsub _ Ha)). rewrite Forall_forall in HU. apply HU, Hx.
  - apply pairOf_snapKey.
Qed.

Lemma withPairOf_elem x snaps y : y ∈ Dual.withPairOf x snaps → y ∈ snaps.
Proof. unfold Dual.withPairOf. rewrite list_elem_of_filter. tauto. Qed.

(** The merge, read by pairs, when the keys are unambiguous. *)
Lemma elem_of_mergeSnapshots_pairs primarySnaps secondarySnaps x :
  Dual.keysUnambiguous primarySnaps secondarySnaps →
  x ∈ Dual.mergeSnapshots Less primarySnaps secondarySnaps ↔
    last (Dual.withPairOf x primarySnaps) = Some x ∨
    (Dual.withPairOf x primarySnaps = [] ∧
     head (Dual.withPairOf x secondarySnaps) = Some x).
Proof.
  intros HU. rewrite elem_of_mergeSnapshots, lookup_snapMapOf.
  assert (Hin : x ∈ primarySnaps ++ secondarySnaps →
    Dual.withKey (Dual.snapKey x) primarySnaps = Dual.withPairOf x primarySnaps ∧
    Dual.withKey (Dual.snapKey x) secondarySnaps = Dual.withPairOf x secondarySnaps).
  { intros Hx. split; apply (withKey_withPairOf primarySnaps secondarySnaps); auto.
    - intros a Ha. apply elem_of_app. auto.
    - intros a Ha. apply elem_of_app. auto. }
  split.
  - intros Hm.
    assert (Hx : x ∈ primarySnaps ++ secondarySnaps).
    { apply elem_of_app.
      destruct (last (Dual.withKey (Dual.snapKey x) primarySnaps)) as [y|] eqn:Hl.
      - injection Hm as ->. left. apply last_Some_elem_of, withKey_elem in Hl. tauto.
      - right. apply head_Some_elem_of, withKey_elem in Hm. tauto. }
    destruct (Hin Hx) as [<- <-].
    destruct (last (Dual.withKey (Dual.snapKey x) primarySnaps)) as [y|] eqn:Hl.
    + left. exact Hm.
    + right. split; [apply last_None; exact Hl|exact Hm].
  - intros [Hl|[Hn Hh]].
    + assert (Hx : x ∈ primarySnaps ++ secondarySnaps).
      { apply elem_of_app. left. eapply withPairOf_elem, last_Some_elem_of, Hl. }
      destruct (Hin Hx) as [-> _]. rewrite Hl. reflexivity.
    + assert (Hx : x ∈ primarySnaps ++ secondarySnaps).
      { apply elem_of_app. right. eapply withPairOf_elem, head_Some_elem_of, Hh. }
      destruct (Hin Hx) as [-> ->]. rewrite Hn. exact Hh.
Qed.

Lemma mergeSnapshots_NoDup_pairs primarySnaps secondarySnaps :
  NoDup (Dual.pairOf <$> Dual.mergeSnapshots Less primarySnaps secondarySnaps).
Proof.
  apply (NoDup_fmap_1 (λ p : string * string, p.1 +:+ "-" +:+ p.2)).
  rewrite <- list_fmap_compose. apply mergeSnapshots_NoDup_keys.
Qed.

(** With an ordering as [sort.Sort] wants it, the merge is sorted. *)
Lemma mergeSnapshots_sorted primarySnaps secondarySnaps :
  (∀ a b, Less a b = true → Less b a = false) →
  (∀ a b c, Less b a = false → Less c b = false → Less c a = false) →
  StronglySorted (Dual.notAfter Less)
    (Dual.mergeSnapshots Less primarySnaps secondarySnaps).
Proof.
  intros Hasym Htrans. unfold Dual.mergeSnapshots.
  assert (Transitive (Dual.notAfter Less)).
  { intros a b c Hab Hbc. unfold Dual.notAfter in *. eapply Htrans; eauto. }
  assert (Total (Dual.notAfter Less)).
  { intros a b. unfold Dual.notAfter.
    destruct (Less b a) eqn:Hba; [right; apply Hasym, Hba|left; reflexivity]. }
  apply StronglySorted_merge_sort; assumption.
Qed.


End MergeProps.

Section MergeClaims.
Variable Less : Snapshot → Snapshot → bool.

(** C4 (amended).  For two listings in which entries that differ in
    directory or name never share a map key, the merge de-duplicates by the
    (directory, name) pair: no two merged entries have the same pair; an
    entry is in the merge exactly when it is the last primary entry with
    its pair, or no primary entry has its pair and it is the first
    secondary entry with it (so the primary wins on a collision).  For an
    ordering that is asymmetric and whose "not after" is transitive, the
    merge is sorted.  On the listings [(A, X, rev 1)] and
    [(A, X, rev 2); (B, Y)] the merge has two entries and its (A, X) entry
    is the primary's. *)
Theorem mergeSnapshots_dedups_by_pair (primarySnaps secondarySnaps : SnapList) :
  Dual.keysUnambiguous primarySnaps secondarySnaps →
  NoDup (Dual.pairOf <$> Dual.mergeSnapshots Less primarySnaps secondarySnaps) ∧
  (∀ x, x ∈ Dual.mergeSnapshots Less primarySnaps secondarySnaps ↔
     last (Dual.withPairOf x primarySnaps) = Some x ∨
     (Dual.withPairOf x primarySnaps = [] ∧
      head (Dual.withPairOf x secondarySnaps) = Some x)) ∧
  ((∀ a b, Less a b = true → Less b a = false) →
   (∀ a b c, Less b a = false → Less c b = false → Less c a = false) →
   StronglySorted (Dual.notAfter Less)
     (Dual.mergeSnapshots Less primarySnaps secondarySnaps)) ∧
  (length (Dual.mergeSnapshots Less [sampleSnapshot "A" "X" 1]
             [sampleSnapshot "A" "X" 2; sampleSnapshot "B" "Y" 3]) = 2%nat ∧
   ∀ x, x ∈ Dual.mergeSnapshots Less [sampleSnapshot "A" "X" 1]
              [sampleSnapshot "A" "X" 2; sampleSnapshot "B" "Y" 3] →
        Dual.pairOf x = ("A", "X") → x = sampleSnapshot "A" "X" 1).
Proof.
  intros HU. split; [apply mergeSnapshots_NoDup_pairs|].
  split; [intros x; apply elem_of_mergeSnapshots_pairs, HU|].
  split; [apply mergeSnapshots_sorted|].
  split.
  - rewrite mergeSnapshots_Permutation. vm_compute. reflexivity.
  - intros x Hx Hp. apply elem_of_mergeSnapshots in Hx.
    assert (Hk : Dual.snapKey x = "A-X").
    { apply (pairOf_snapKey x (sampleSnapshot "A" "X" 1)). exact Hp. }
    rewrite Hk in Hx. vm_compute in Hx. injection Hx as <-. reflexivity.
Qed.

End MergeClaims.

(** ** Error texts *)

Lemma HasPrefix_append p t : HasPrefix (p +:+ t) p = true.
Proof.
  induction p as [|a p IH]; simpl; [destruct t; reflexivity|].
  rewrite Ascii.eqb_refl. exact IH.
Qed.

Lemma Contains_unfold s sub :
  Contains s sub =
    HasPrefix s sub ||
    match s with EmptyString => false | String _ t => Contains t sub end.
Proof. destruct s; reflexivity. Qed.

Lemma Contains_here p t : Contains (p +:+ t) p = true.
Proof. rewrite Contains_unfold, HasPrefix_append. reflexivity. Qed.

Lemma Contains_append_r p t sub : Contains t sub = true → Contains (p +:+ t) sub = true.
Proof.
  intros Ht. induction p as [|a p IH]; simpl; [exact Ht|].
  rewrite IH. apply orb_true_r.
Qed.

(** A text that has [sub] somewhere after a prefix contains [sub]. *)
Lemma Contains_middle p sub t : Contains (p +:+ sub +:+ t) sub = true.
Proof. apply Contains_append_r, Contains_here. Qed.

Lemma HasPrefix_refl s : HasPrefix s s = true.
Proof. induction s as [|a s IH]; simpl; [reflexivity|]. rewrite Ascii.eqb_refl. exact IH. Qed.

Lemma Contains_end p sub : Contains (p +:+ sub) sub = true.
Proof.
  apply Contains_append_r. rewrite Contains_unfold, HasPrefix_refl. reflexivity.
Qed.

(** ** The error of a double failure *)

Section SaveErrors.
Context {P Q : Type} `{SnapStore P} `{SnapStore Q}.

(** X3.  [Save] with the primary tried and failing with [e1] and the
    secondary failing with [e2]: the error names both causes, where
    [Fetch] in the same situation names only the second. *)
Lemma Save_both_fail_names_both_causes snap rc (ds : DualSnapStore P Q) e1 e2 p' q' :
  rcErr rc = None →
  Dual.isPrimaryDisabled ds = false →
  storeSave snap (NopCloser (rcData rc)) (primary ds) = (Some e1, p') →
  storeSave snap (NopCloser (rcData rc)) (secondary ds) = (Some e2, q') →
  fst (Dual.Save snap rc ds) =
    Errorf ("failed to save snapshot " +:+ SnapName snap +:+
            " to both endpoints - Primary: " +:+ errText e1 +:+
            ", Secondary: " +:+ errText e2) ∧
  Contains (fmtV (fst (Dual.Save snap rc ds))) (errText e1) = true ∧
  Contains (fmtV (fst (Dual.Save snap rc ds))) (errText e2) = true.
Proof.
  intros Hrc Hd Hp Hq.
  assert (E : fst (Dual.Save snap rc ds) =
    Errorf ("failed to save snapshot " +:+ SnapName snap +:+
            " to both endpoints - Primary: " +:+ errText e1 +:+
            ", Secondary: " +:+ errText e2)).
  { unfold Dual.Save, ReadAll. rewrite Hrc, Hd. cbn [negb]. rewrite Hp.
    unfold Dual.saveSecondary.
    replace (secondary (Dual.recordPrimaryFailure (Some e1) (Dual.withPrimary p' ds)))
      with (secondary ds)
      by (unfold Dual.recordPrimaryFailure; destruct (isTransientError _); reflexivity).
    rewrite Hq. reflexivity. }
  rewrite E. split; [reflexivity|]. cbn [fmtV Errorf errText]. split.
  - apply Contains_append_r, Contains_append_r, Contains_middle.
  - do 4 apply Contains_append_r. apply Contains_end.
Qed.

End SaveErrors.

(** ** Listing through the dual store *)

Section ListClaims.
Context {P Q : Type} `{SnapStore P} `{SnapStore Q}.
Variable Less : Snapshot → Snapshot → bool.


End ListClaims.

(** ** Resilient wrapper *)

Section ResilientClaims.
Context {T : Type} `{SnapStore T}.

(** C8.  The wrapper's [List] returns an empty sequence and no error
    when the wrapped [List] fails with a transient error, and the wrapped
    store's result and error as they are otherwise; [Fetch], [Save] and
    [Delete] return the wrapped store's error as it is, whatever its
    class (and every non-transient outcome of [Fetch] whole). *)
Theorem resilient_wrapper_errors
    (r : ResilientS3SnapStore T) (includeAll : bool) (snap : Snapshot) (rc : ReadCloser) :
  (∀ e, snd (fst (storeList includeAll (S3SnapStore r))) = Some e →
        isTransientError (Some e) = true →
        fst (Resilient.List includeAll r) = ([], None)) ∧
  (isTransientError (snd (fst (storeList includeAll (S3SnapStore r)))) = false →
     fst (Resilient.List includeAll r) = fst (storeList includeAll (S3SnapStore r))) ∧
  snd (fst (Resilient.Fetch snap r)) = snd (fst (storeFetch snap (S3SnapStore r))) ∧
  (isTransientError (snd (fst (storeFetch snap (S3SnapStore r)))) = false →
     fst (Resilient.Fetch snap r) = fst (storeFetch snap (S3SnapStore r))) ∧
  fst (Resilient.Save snap rc r) = fst (storeSave snap rc (S3SnapStore r)) ∧
  fst (Resilient.Delete snap r) = fst (storeDelete snap (S3SnapStore r)).
Proof.
  unfold Resilient.List, Resilient.Fetch, Resilient.Save, Resilient.Delete,
    Resilient.failedTransiently, Resilient.IsTransientError.
  destruct (storeList includeAll (S3SnapStore r)) as [[snaps el] s1].
  destruct (storeFetch snap (S3SnapStore r)) as [[frc ef] s2].
  destruct (storeSave snap rc (S3SnapStore r)) as [es s3].
  destruct (storeDelete snap (S3SnapStore r)) as [ed s4].
  cbn [fst snd]. repeat split.
  - intros e -> ->. reflexivity.
  - intros Hn. destruct el; [rewrite Hn|]; reflexivity.
  - destruct ef as [e|]; [destruct (isTransientError (Some e))|]; reflexivity.
  - intros Hn. destruct ef; [rewrite Hn|]; reflexivity.
  - destruct es as [e|]; [destruct (isTransientError (Some e))|]; reflexivity.
  - destruct ed as [e|]; [destruct (isTransientError (Some e))|]; reflexivity.
Qed.

End ResilientClaims.

(** ** Store resolver *)

Section ResolverProps.
Import Resolver.
Variable backupVersionV2 : string.
Variable HasSecondaryEndpoint : SnapstoreConfig → bool.
Variable GetSecondaryConfig : SnapstoreConfig → option SnapstoreConfig.

Lemma defaultsOnly_refl c : defaultsOnly c c.
Proof. unfold defaultsOnly. repeat split; auto. Qed.

Lemma defaultsOnly_trans c1 c2 c3 :
  defaultsOnly c1 c2 → defaultsOnly c2 c3 → defaultsOnly c1 c3.
Proof.
  unfold defaultsOnly.
  intros (A1 & A2 & A3 & A4 & A5 & A6 & A7 & A8 & A9 & A10 & A11 & A12 & A13)
         (B1 & B2 & B3 & B4 & B5 & B6 & B7 & B8 & B9 & B10 & B11 & B12 & B13).
  repeat split; try congruence.
  - intros E. rewrite B11, A11; auto. rewrite A11; auto.
  - intros E. rewrite B12, A12; auto. rewrite A12; auto.
  - intros E. rewrite B13, A13; auto. rewrite A13; auto.
Qed.

Lemma defaultsOnly_setPrefix v c : isEmpty (Prefix c) = true → defaultsOnly c (setPrefix v c).
Proof. intros E. unfold defaultsOnly. simpl. repeat split; auto. congruence. Qed.

Lemma defaultsOnly_setContainer v c :
  isEmpty (Container c) = true → defaultsOnly c (setContainer v c).
Proof. intros E. unfold defaultsOnly. simpl. repeat split; auto. congruence. Qed.

Lemma defaultsOnly_setTempDir v c :
  isEmpty (TempDir c) = true → defaultsOnly c (setTempDir v c).
Proof. intros E. unfold defaultsOnly. simpl. repeat split; auto. congruence. Qed.

Lemma length_zero_isEmpty s : (String.length s =? 0)%nat = isEmpty s.
Proof. destruct s; reflexivity. Qed.

Lemma providerSwitch_config c identifier h :
  defaultsOnly c (configAfter (providerSwitch c identifier h)).
Proof.
  unfold providerSwitch, configAfter.
  destruct (Provider c); try (simpl; apply defaultsOnly_refl).
  all: destruct (isEmpty (Container c)) eqn:E.
  all: destruct (HasPrefix _ _); [|destruct (homeDir h) as [d [e|]]]; simpl.
  all: first [apply defaultsOnly_setContainer, E | apply defaultsOnly_refl].
Qed.

Lemma getSingleSnapstoreWithIdentifier_config c identifier h :
  defaultsOnly c
    (configAfter (getSingleSnapstoreWithIdentifier backupVersionV2 c identifier h)).
Proof.
  unfold getSingleSnapstoreWithIdentifier.
  set (c1 := if isEmpty (Prefix c) then setPrefix _ c else c).
  assert (H1 : defaultsOnly c c1).
  { unfold c1. destruct (isEmpty (Prefix c)) eqn:E;
      [apply defaultsOnly_setPrefix, E|apply defaultsOnly_refl]. }
  set (c2 := if isEmpty (Container c1) then _ else c1).
  assert (H2 : defaultsOnly c1 c2).
  { unfold c2. destruct (isEmpty (Container c1)) eqn:E; [|apply defaultsOnly_refl].
    destruct (IsSource c1); apply defaultsOnly_setContainer, E. }
  pose proof (defaultsOnly_trans _ _ _ H1 H2) as H12.
  destruct (_ && _); [exact H12|].
  rewrite length_zero_isEmpty.
  set (c3 := if isEmpty (TempDir c2) then _ else c2).
  assert (H3 : defaultsOnly c2 c3).
  { unfold c3. destruct (isEmpty (TempDir c2)) eqn:E;
      [apply defaultsOnly_setTempDir, E|apply defaultsOnly_refl]. }
  pose proof (defaultsOnly_trans _ _ _ H12 H3) as H123.
  destruct (Stat h (TempDir c3)); [| |exact H123].
  - eapply defaultsOnly_trans; [exact H123|apply providerSwitch_config].
  - destruct (MkdirAll (TempDir c3) h) as [[e|] h']; [exact H123|].
    eapply defaultsOnly_trans; [exact H123|apply providerSwitch_config].
Qed.

Lemma createResilientSingleSnapstoreWithIdentifier_config c identifier h :
  defaultsOnly c
    (configAfter (createResilientSingleSnapstoreWithIdentifier backupVersionV2
                    c identifier h)).
Proof.
  unfold createResilientSingleSnapstoreWithIdentifier.
  pose proof (getSingleSnapstoreWithIdentifier_config c identifier h) as Hs.
  destruct (getSingleSnapstoreWithIdentifier backupVersionV2 c identifier h)
    as [[[store [e|]] c'] h']; [exact Hs|].
  destruct (providerIs _ _); [|exact Hs].
  destruct store as [[| [] | | |]|]; exact Hs.
Qed.

Lemma GetDualSnapstore_config c h :
  defaultsOnly c
    (configAfter (GetDualSnapstore backupVersionV2 GetSecondaryConfig c h)).
Proof.
  unfold GetDualSnapstore, getSingleSnapstore.
  pose proof (getSingleSnapstoreWithIdentifier_config c "primary" h) as Hs.
  destruct (getSingleSnapstoreWithIdentifier backupVersionV2 c "primary" h)
    as [[[store [e|]] c'] h']; [exact Hs|].
  destruct (GetSecondaryConfig c') as [sc|]; [|exact Hs].
  destruct (getSingleSnapstoreWithIdentifier backupVersionV2 sc "primary" h')
    as [[[store2 [e|]] c2] h2]; exact Hs.
Qed.

Lemma createResilientDualSnapstore_config c h :
  defaultsOnly c
    (configAfter (createResilientDualSnapstore backupVersionV2 GetSecondaryConfig c h)).
Proof.
  unfold createResilientDualSnapstore, createResilientSingleSnapstore.
  pose proof (createResilientSingleSnapstoreWithIdentifier_config c "primary" h) as Hs.
  destruct (createResilientSingleSnapstoreWithIdentifier backupVersionV2 c "primary" h)
    as [[[store pe] c'] h'].
  destruct (GetSecondaryConfig c') as [sc|]; [|destruct pe; exact Hs].
  destruct (createResilientSingleSnapstoreWithIdentifier backupVersionV2 sc "secondary" h')
    as [[[store2 se] c2] h2].
  match goal with |- context [if ?b then _ else _] => destruct b end; [exact Hs|].
  destruct store, store2; exact Hs.
Qed.

(** C7 (amended).  [GetSnapstore] and [GetResilientSnapstore] change no
    field of the configuration they are given other than [Prefix],
    [Container] and [TempDir], and each of these three only when it is
    empty on entry; a configuration with the three set is left as it is. *)
Theorem resolver_fills_in_defaults_only (config : SnapstoreConfig) (h : Host) :
  defaultsOnly config
    (configAfter (GetSnapstore backupVersionV2 HasSecondaryEndpoint
                    GetSecondaryConfig config h)) ∧
  defaultsOnly config
    (configAfter (GetResilientSnapstore backupVersionV2 HasSecondaryEndpoint
                    GetSecondaryConfig config h)) ∧
  (isEmpty (Prefix config) = false → isEmpty (Container config) = false →
   isEmpty (TempDir config) = false →
   configAfter (GetSnapstore backupVersionV2 HasSecondaryEndpoint
                  GetSecondaryConfig config h) = config ∧
   configAfter (GetResilientSnapstore backupVersionV2 HasSecondaryEndpoint
                  GetSecondaryConfig config h) = config).
Proof.
  assert (H1 : defaultsOnly config
    (configAfter (GetSnapstore backupVersionV2 HasSecondaryEndpoint
                    GetSecondaryConfig config h))).
  { unfold GetSnapstore. destruct (HasSecondaryEndpoint config);
      [apply GetDualSnapstore_config|apply getSingleSnapstoreWithIdentifier_config]. }
  assert (H2 : defaultsOnly config
    (configAfter (GetResilientSnapstore backupVersionV2 HasSecondaryEndpoint
                    GetSecondaryConfig config h))).
  { unfold GetResilientSnapstore. destruct (HasSecondaryEndpoint config);
      [apply createResilientDualSnapstore_config
      |apply createResilientSingleSnapstoreWithIdentifier_config]. }
  split; [exact H1|]. split; [exact H2|].
  intros Ep Ec Et.
  assert (Heq : ∀ c', defaultsOnly config c' → c' = config).
  { intros c' (A1 & A2 & A3 & A4 & A5 & A6 & A7 & A8 & A9 & A10 & A11 & A12 & A13).
    specialize (A11 Ep). specialize (A12 Ec). specialize (A13 Et).
    destruct c', config; simpl in *. congruence. }
  split; apply Heq; assumption.
Qed.

End ResolverProps.

(** ** Chunk-upload coordinator *)

Section ChunkProps.
Import ChunkUpload.
Variable maxRetryAttempts : Z.

Lemma wrapUint_small z : 0 <= z < 2 ^ 64 → wrapUint z = z.
Proof. intros Hz. unfold wrapUint. apply Z.mod_small. exact Hz. Qed.

(** The coordinator on a list of results it gets through without
    returning goes on with what follows. *)
Lemma collectLoop_app pre rs n st n' st' :
  collectLoop maxRetryAttempts pre n st = mkOutcome None false n' st' [] →
  collectLoop maxRetryAttempts (pre ++ rs) n st = collectLoop maxRetryAttempts rs n' st'.
Proof.
  revert n st. induction pre as [|r pre IH]; intros n st; simpl.
  - intros [= -> ->]. reflexivity.
  - destruct (err r).
    + destruct (_ =? _); [discriminate|]. apply IH.
    + destruct (_ =? 0); [discriminate|]. apply IH.
Qed.

Lemma successes_cons r rs :
  successes (r :: rs) = (if succeeded r then 1 else 0) + successes rs.
Proof.
  unfold successes. rewrite filter_cons.
  destruct (succeeded r); [rewrite decide_True by reflexivity
                          |rewrite decide_False by discriminate]; simpl length; lia.
Qed.

Lemma successes_nonneg rs : 0 <= successes rs.
Proof. unfold successes. lia. Qed.

(** Results none of which is terminal, with fewer successes than chunks
    remain: the coordinator reads them all and is still running. *)
Lemma collectLoop_running rs n st :
  Forall (λ r, terminal maxRetryAttempts r = false) rs →
  successes rs < n → n < 2 ^ 63 →
  ∃ st', collectLoop maxRetryAttempts rs n st =
           mkOutcome None false (n - successes rs) st' [].
Proof.
  intros Hall. revert n st.
  induction Hall as [|r rs Hr _ IH]; intros n st Hs Hn.
  - exists st. cbn [collectLoop]. f_equal. unfold successes. simpl. lia.
  - rewrite successes_cons in *. pose proof (successes_nonneg rs) as Hnn.
    cbn [collectLoop]. unfold terminal, succeeded in *.
    destruct (err r) as [e|].
    + rewrite Hr. destruct (IH n (st ++ [mkTimer
        (wrapInt (wrapInt (Z.shiftl 1 (attempt (chunk_ r))) * Second))
        (mkChunk (offset (chunk_ r)) (size (chunk_ r))
                 (wrapUint (attempt (chunk_ r) + 1)) (id (chunk_ r)))])
        ltac:(lia) Hn) as [st' ->].
      exists st'. f_equal; lia.
    + rewrite wrapInt_small by lia.
      destruct (n - 1 =? 0) eqn:E; [apply Z.eqb_eq in E; lia|].
      destruct (IH (n - 1) st ltac:(lia) ltac:(lia)) as [st' ->].
      exists st'. f_equal; lia.
Qed.

(** C9.  While the coordinator is running (it has read [pre] without
    returning): a failed result whose chunk is at [maxRetryAttempts] makes
    it close the stop channel and return that result, leaving the results
    after it unread; a failed result of a chunk below the maximum (at most
    34, so that the delay fits a duration) makes it start one timer of
    [2 ^ attempt] seconds for the chunk with [attempt + 1] and go on, and
    the timer sends the chunk only if the stop channel is still open when
    it fires.  When the results hold a success for each of [noOfChunks]
    chunks and no terminal failure before the last of them, the
    coordinator ends with the counter at zero, the stop channel closed and
    nil returned. *)
Theorem collectChunkUploadError_outcomes
    (pre rest : list chunkUploadResult) (r : chunkUploadResult) (noOfChunks n : Z)
    (st : list Timer) :
  (collectChunkUploadError maxRetryAttempts pre noOfChunks = mkOutcome None false n st [] →
   is_Some (err r) → attempt (chunk_ r) = maxRetryAttempts →
   collectChunkUploadError maxRetryAttempts (pre ++ r :: rest) noOfChunks =
     mkOutcome (Some r) true n st rest) ∧
  (collectChunkUploadError maxRetryAttempts pre noOfChunks = mkOutcome None false n st [] →
   is_Some (err r) → 0 <= attempt (chunk_ r) < maxRetryAttempts → maxRetryAttempts <= 34 →
   let again := mkChunk (offset (chunk_ r)) (size (chunk_ r)) (attempt (chunk_ r) + 1)
                        (id (chunk_ r)) in
   let timer := mkTimer (2 ^ attempt (chunk_ r) * Second) again in
   collectChunkUploadError maxRetryAttempts (pre ++ [r]) noOfChunks =
     mkOutcome None false n (st ++ [timer]) [] ∧
   fire true timer = None ∧ fire false timer = Some again) ∧
  (Forall (λ x, terminal maxRetryAttempts x = false) pre →
   err r = None → successes pre + 1 = noOfChunks → noOfChunks < 2 ^ 63 →
   ∃ started,
     collectChunkUploadError maxRetryAttempts (pre ++ r :: rest) noOfChunks =
       mkOutcome None true 0 started rest).
Proof.
  unfold collectChunkUploadError. split; [|split].
  - intros Hpre [e He] Ha. rewrite (collectLoop_app _ _ _ _ _ _ Hpre). simpl.
    rewrite He, Ha, Z.eqb_refl. reflexivity.
  - intros Hpre [e He] Ha Hmax. cbv zeta.
    split; [|split; reflexivity].
    rewrite (collectLoop_app _ _ _ _ _ _ Hpre). simpl. rewrite He.
    destruct (attempt (chunk_ r) =? maxRetryAttempts) eqn:E;
      [apply Z.eqb_eq in E; lia|].
    repeat f_equal.
    + rewrite Z.shiftl_1_l.
      assert (2 ^ attempt (chunk_ r) <= 2 ^ 33)
        by (apply Z.pow_le_mono_r; lia).
      assert (0 < 2 ^ attempt (chunk_ r)) by (apply Z.pow_pos_nonneg; lia).
      rewrite (wrapInt_small (2 ^ _)) by lia.
      apply wrapInt_small. unfold Second. lia.
    + apply wrapUint_small. lia.
  - intros Hall He Hs Hn.
    pose proof (successes_nonneg pre) as Hnn.
    destruct (collectLoop_running pre noOfChunks [] Hall ltac:(lia) Hn) as [st' Hrun].
    exists st'. rewrite (collectLoop_app _ _ _ _ _ _ Hrun). simpl. rewrite He.
    rewrite wrapInt_small by lia.
    replace (noOfChunks - successes pre - 1) with 0 by lia. reflexivity.
Qed.

End ChunkProps.

(** ** The theorems at concrete stores *)

Lemma Save_primary_success_example :
  let ds := Dual.NewDualSnapStore (newSpy (workingStub [])) (newSpy (failingStub "down")) in
  fst (Dual.Save sampleSnap sampleContent ds) = None ∧
  saveCalls (primary (snd (Dual.Save sampleSnap sampleContent ds))) = 1%nat ∧
  saveCalls (secondary (snd (Dual.Save sampleSnap sampleContent ds))) = 0%nat.
Proof.
  intros ds.
  destruct (Save_primary_success_skips_secondary sampleSnap sampleContent ds)
    as (H1 & _ & H3 & H4 & _); [reflexivity..|].
  split; [exact H1|]. split; [exact H4|exact H3].
Defined.

Lemma Save_read_failure_example :
  let ds := mkDual (newSpy (workingStub [])) (newSpy (workingStub [])) true 2 in
  Dual.Save sampleSnap brokenContent ds =
    (Errorf "failed to read snapshot data: unexpected EOF", ds).
Proof.
  intros ds.
  destruct (Save_read_failure_changes_nothing sampleSnap brokenContent ds
              {| errText := "unexpected EOF"; netError := None |}) as [H1 _];
    [reflexivity|].
  exact H1.
Defined.

Lemma Fetch_both_fail_example :
  let ds := Dual.NewDualSnapStore (failingStub "access denied") (failingStub "no such key") in
  Dual.isPrimaryDisabled ds = false ∧
  snd (fst (Dual.Fetch sampleSnap ds)) =
    Errorf ("failed to fetch snapshot Full-00000000-00000010-1640995200 from both " +:+
            "endpoints - Primary: disabled due to failures, Secondary: no such key") ∧
  Contains (fmtV (snd (fst (Dual.Fetch sampleSnap ds)))) "access denied" = false.
Proof.
  intros ds. split; [reflexivity|].
  assert (H1 := Fetch_both_fail_reports_fixed_primary_text sampleSnap ds).
  specialize (H1 None None {| errText := "access denied"; netError := None |}
                {| errText := "no such key"; netError := None |}
                (primary ds) (secondary ds)).
  specialize (H1 ltac:(reflexivity) ltac:(reflexivity) ltac:(reflexivity)).
  split; [exact H1|]. rewrite H1. vm_compute. reflexivity.
Defined.

Lemma three_transient_failures_example :
  let ds := Dual.NewDualSnapStore (newSpy (failingStub dnsFailure)) (newSpy (workingStub [])) in
  let fetch := Dual.OpFetch sampleSnap in
  let save := Dual.OpSave sampleSnap sampleContent in
  Dual.isPrimaryDisabled (Dual.run revisionLess [fetch; save; fetch] ds) = true ∧
  (fetchCalls (primary (Dual.run revisionLess [fetch; save; fetch] ds)) = 2%nat ∧
   fetchCalls (primary (Dual.run revisionLess [fetch; save; fetch; fetch] ds)) = 2%nat).
Proof.
  intros ds fetch save.
  destruct (three_transient_failures_disable_primary revisionLess ds fetch save fetch fetch)
    as ((H1 & _ & _ & H4) & _); try reflexivity.
  - unfold Dual.counterInRange. simpl. lia.
  - split; [exact H1|]. split; [reflexivity|]. rewrite H4. reflexivity.
Defined.

Lemma disabled_primary_example :
  let ds := mkDual (newSpy (workingStub [])) (newSpy (workingStub [])) true 3 in
  let ops := [Dual.OpSave sampleSnap sampleContent; Dual.OpFetch sampleSnap;
              Dual.OpList true Dual.FromSnapsCh Dual.FromErrCh; Dual.OpDelete sampleSnap; Dual.OpFetch sampleSnap] in
  Dual.isPrimaryDisabled (Dual.run revisionLess ops ds) = true ∧
  saveCalls (primary (Dual.run revisionLess ops ds)) = 0%nat ∧
  fetchCalls (primary (Dual.run revisionLess ops ds)) = 0%nat.
Proof.
  intros ds ops.
  destruct (disabled_primary_stays_disabled revisionLess ops ds)
    as (H1 & _ & _ & H4 & H5); [reflexivity|].
  split; [exact H1|]. split; [exact H4|exact H5].
Defined.

Lemma revisionLess_asymmetric a b : revisionLess a b = true → revisionLess b a = false.
Proof. unfold revisionLess. lia. Qed.

Lemma revisionLess_notAfter_transitive a b c :
  revisionLess b a = false → revisionLess c b = false → revisionLess c a = false.
Proof. unfold revisionLess. lia. Qed.

Lemma mergeSnapshots_example :
  let primarySnaps := [sampleSnapshot "A" "X" 1] in
  let secondarySnaps := [sampleSnapshot "B" "Y" 3; sampleSnapshot "A" "X" 2] in
  Dual.mergeSnapshots revisionLess primarySnaps secondarySnaps =
    [sampleSnapshot "A" "X" 1; sampleSnapshot "B" "Y" 3] ∧
  StronglySorted (Dual.notAfter revisionLess)
    (Dual.mergeSnapshots revisionLess primarySnaps secondarySnaps).
Proof.
  intros primarySnaps secondarySnaps.
  destruct (mergeSnapshots_dedups_by_pair revisionLess primarySnaps secondarySnaps)
    as (_ & _ & H3 & _).
  - apply (bool_decide_eq_true_1 _ (Decision0 := Dual.keysUnambiguous_dec _ _)).
    vm_compute. reflexivity.
  - split; [vm_compute; reflexivity|].
    apply H3; [apply revisionLess_asymmetric|apply revisionLess_notAfter_transitive].
Defined.

(** C4 as stated fails twice over.  Two primary entries with one pair:
    only the later one is kept.  A primary entry (a-b, c) and a secondary
    entry (a, b-c), whose pairs differ, get the one key a-b-c: the
    secondary entry is dropped. *)
Lemma mergeSnapshots_not_exactly_by_pair :
  (Dual.mergeSnapshots revisionLess [sampleSnapshot "A" "X" 1; sampleSnapshot "A" "X" 2] [] =
     [sampleSnapshot "A" "X" 2] ∧
   ¬ Dual.dedupExactlyByPair [sampleSnapshot "A" "X" 1; sampleSnapshot "A" "X" 2] []
       (Dual.mergeSnapshots revisionLess
          [sampleSnapshot "A" "X" 1; sampleSnapshot "A" "X" 2] [])) ∧
  (Dual.mergeSnapshots revisionLess [sampleSnapshot "a-b" "c" 1] [sampleSnapshot "a" "b-c" 2] =
     [sampleSnapshot "a-b" "c" 1] ∧
   ¬ Dual.dedupExactlyByPair [sampleSnapshot "a-b" "c" 1] [sampleSnapshot "a" "b-c" 2]
       (Dual.mergeSnapshots revisionLess
          [sampleSnapshot "a-b" "c" 1] [sampleSnapshot "a" "b-c" 2])).
Proof.
  split.
  - assert (E : Dual.mergeSnapshots revisionLess
                  [sampleSnapshot "A" "X" 1; sampleSnapshot "A" "X" 2] [] =
                [sampleSnapshot "A" "X" 2]) by (vm_compute; reflexivity).
    split; [exact E|]. rewrite E. intros [Hp _].
    specialize (Hp (sampleSnapshot "A" "X" 1) ltac:(left)).
    apply list_elem_of_singleton in Hp. discriminate Hp.
  - assert (E : Dual.mergeSnapshots revisionLess
                  [sampleSnapshot "a-b" "c" 1] [sampleSnapshot "a" "b-c" 2] =
                [sampleSnapshot "a-b" "c" 1]) by (vm_compute; reflexivity).
    split; [exact E|]. rewrite E. intros [_ Hs].
    specialize (Hs (sampleSnapshot "a" "b-c" 2) ltac:(left)).
    assert (Hin : sampleSnapshot "a" "b-c" 2 ∈ [sampleSnapshot "a-b" "c" 1]).
    { apply Hs. intros (p & Hp & Heq). apply list_elem_of_singleton in Hp. subst p.
      discriminate Heq. }
    apply list_elem_of_singleton in Hin. discriminate Hin.
Qed.



(** C7 as stated fails: on a configuration with no temporary directory
    set, both resolvers write "/tmp" into the configuration they were
    given (and here create the directory). *)
Lemma resolver_sets_TempDir :
  Resolver.TempDir Resolver.sampleConfig = "" ∧
  Resolver.TempDir
    (Resolver.configAfter
       (Resolver.GetSnapstore "v2" Resolver.specHasSecondaryEndpoint
          Resolver.specGetSecondaryConfig Resolver.sampleConfig Resolver.quietHost)) = "/tmp" ∧
  Resolver.TempDir
    (Resolver.configAfter
       (Resolver.GetResilientSnapstore "v2" Resolver.specHasSecondaryEndpoint
          Resolver.specGetSecondaryConfig Resolver.sampleConfig Resolver.quietHost)) = "/tmp" ∧
  fst (fst (Resolver.GetResilientSnapstore "v2" Resolver.specHasSecondaryEndpoint
              Resolver.specGetSecondaryConfig Resolver.sampleConfig Resolver.quietHost)) =
    (Some (Resolver.ResilientS3
             (Resolver.ProviderSnapStore Resolver.SnapstoreProviderS3
                (Resolver.setTempDir "/tmp" Resolver.sampleConfig) "primary")), None).
Proof. repeat split; vm_compute; reflexivity. Qed.

Lemma resolver_defaults_example :
  let config := Resolver.setTempDir "/var/tmp" Resolver.sampleConfig in
  Resolver.configAfter
    (Resolver.GetSnapstore "v2" Resolver.specHasSecondaryEndpoint
       Resolver.specGetSecondaryConfig config Resolver.quietHost) = config ∧
  Resolver.configAfter
    (Resolver.GetResilientSnapstore "v2" Resolver.specHasSecondaryEndpoint
       Resolver.specGetSecondaryConfig config Resolver.quietHost) = config.
Proof.
  intros config.
  destruct (resolver_fills_in_defaults_only "v2" Resolver.specHasSecondaryEndpoint
              Resolver.specGetSecondaryConfig config Resolver.quietHost) as (_ & _ & H3).
  apply H3; reflexivity.
Defined.

Lemma resilient_wrapper_example :
  let r := mkResilient (failingStub dnsFailure) in
  fst (Resilient.List true r) = ([], None) ∧
  snd (fst (Resilient.Fetch sampleSnap r)) = Errorf dnsFailure ∧
  fst (Resilient.Save sampleSnap sampleContent r) = Errorf dnsFailure ∧
  fst (Resilient.Delete sampleSnap r) = Errorf dnsFailure ∧
  fst (Resilient.List true (mkResilient (failingStub "access denied"))) =
    ([], Errorf "access denied").
Proof.
  intros r.
  destruct (resilient_wrapper_errors r true sampleSnap sampleContent)
    as (H1 & _ & H3 & _ & H5 & H6).
  destruct (resilient_wrapper_errors (mkResilient (failingStub "access denied"))
              true sampleSnap sampleContent) as (_ & H2 & _).
  split; [apply (H1 _ eq_refl); reflexivity|].
  split; [exact H3|]. split; [exact H5|]. split; [exact H6|].
  apply H2. reflexivity.
Defined.

Lemma collectChunkUploadError_example :
  let c0 := ChunkUpload.mkChunk 0 100 0 1 in
  let c1 := ChunkUpload.mkChunk 100 100 5 2 in
  let ok c := ChunkUpload.mkResult None c in
  let failed c := ChunkUpload.mkResult (Errorf "i/o timeout") c in
  ChunkUpload.collectChunkUploadError 5 [failed c0; ok c1; failed c1; ok c0] 3 =
    ChunkUpload.mkOutcome (Some (failed c1)) true 2
      [ChunkUpload.mkTimer 1000000000 (ChunkUpload.mkChunk 0 100 1 1)] [ok c0] ∧
  ChunkUpload.collectChunkUploadError 5 [failed c0; ok c1; ok c0] 2 =
    ChunkUpload.mkOutcome None true 0
      [ChunkUpload.mkTimer 1000000000 (ChunkUpload.mkChunk 0 100 1 1)] [].
Proof.
  intros c0 c1 ok failed. split.
  - destruct (collectChunkUploadError_outcomes 5 [failed c0; ok c1] [ok c0] (failed c1) 3 2
                [ChunkUpload.mkTimer 1000000000 (ChunkUpload.mkChunk 0 100 1 1)])
      as (H1 & _).
    apply H1; [reflexivity|eexists; reflexivity|reflexivity].
  - destruct (collectChunkUploadError_outcomes 5 [failed c0; ok c1] [] (ok c0) 2 0 [])
      as (_ & _ & H3).
    destruct H3 as [started Hs];
      [repeat constructor|reflexivity|reflexivity|reflexivity|].
    assert (started = [ChunkUpload.mkTimer 1000000000 (ChunkUpload.mkChunk 0 100 1 1)])
      as <- by (vm_compute in Hs; injection Hs as <-; reflexivity).
    exact Hs.
Defined.

(** * Further properties of the code *)

(** ** The dual store: delete, failover, the breaker over a run *)

#[local] Arguments isTransientError : simpl never.

Section DualMore.
Context {P Q : Type} `{SnapStore P} `{SnapStore Q}.
Variable Less : Snapshot → Snapshot → bool.

(** X1.  [Delete] calls both stores once whatever the breaker says and
    leaves the breaker alone; it returns nil exactly when at least one of
    the two deletions succeeded, and when both failed its error names both
    causes. *)
Theorem Delete_contacts_both_endpoints (snap : Snapshot)
    (ds : DualSnapStore (Spy P) (Spy Q)) :
  deleteCalls (primary (snd (Dual.Delete snap ds))) = S (deleteCalls (primary ds)) ∧
  deleteCalls (secondary (snd (Dual.Delete snap ds))) = S (deleteCalls (secondary ds)) ∧
  primaryFailed (snd (Dual.Delete snap ds)) = primaryFailed ds ∧
  primaryFailCount (snd (Dual.Delete snap ds)) = primaryFailCount ds ∧
  (fst (Dual.Delete snap ds) = None ↔
     fst (storeDelete snap (spied (primary ds))) = None ∨
     fst (storeDelete snap (spied (secondary ds))) = None) ∧
  (∀ e1 e2,
     fst (storeDelete snap (spied (primary ds))) = Some e1 →
     fst (storeDelete snap (spied (secondary ds))) = Some e2 →
     fst (Dual.Delete snap ds) =
       Errorf ("failed to delete snapshot " +:+ SnapName snap +:+
               " from both endpoints - Primary: " +:+ errText e1 +:+
               ", Secondary: " +:+ errText e2)).
Proof.
  unfold Dual.Delete. simpl.
  destruct (storeDelete snap (spied (primary ds))) as [[e1|] p];
    destruct (storeDelete snap (spied (secondary ds))) as [[e2|] q]; simpl.
  all: repeat split; try reflexivity; try discriminate; auto.
  all: try (intros [E|E]; discriminate E).
  all: try (intros a b Ha Hb; congruence).
Qed.

(** X2.  A [Save] whose content is read, whose primary is tried and fails
    with an error of any class and whose secondary accepts the snapshot
    returns nil; each store was called once, and the failure went to the
    breaker: counted when transient, the counter back to zero otherwise. *)
Theorem Save_fails_over_to_secondary (snap : Snapshot) (rc : ReadCloser)
    (ds : DualSnapStore (Spy P) (Spy Q)) (e1 : GoError) :
  rcErr rc = None →
  Dual.isPrimaryDisabled ds = false →
  fst (storeSave snap (NopCloser (rcData rc)) (spied (primary ds))) = Some e1 →
  fst (storeSave snap (NopCloser (rcData rc)) (spied (secondary ds))) = None →
  fst (Dual.Save snap rc ds) = None ∧
  saveCalls (primary (snd (Dual.Save snap rc ds))) = S (saveCalls (primary ds)) ∧
  saveCalls (secondary (snd (Dual.Save snap rc ds))) = S (saveCalls (secondary ds)) ∧
  primaryFailCount (snd (Dual.Save snap rc ds)) =
    (if isTransientError (Some e1) then wrapInt (primaryFailCount ds + 1) else 0) ∧
  primaryFailed (snd (Dual.Save snap rc ds)) =
    (if isTransientError (Some e1) then true else primaryFailed ds).
Proof.
  intros Hrc Hd Hp Hq. unfold Dual.Save, ReadAll. rewrite Hrc, Hd. simpl.
  destruct (storeSave snap (NopCloser (rcData rc)) (spied (primary ds))) as [a p].
  simpl in Hp. subst a. unfold Dual.saveSecondary, Dual.recordPrimaryFailure.
  destruct (isTransientError (Some e1)); simpl.
  all: destruct (storeSave snap (NopCloser (rcData rc)) (spied (secondary ds))) as [b q].
  all: simpl in Hq; subst b; simpl; repeat split; reflexivity.
Qed.

(** X4.  With the primary disabled, [Save] (content read) and [Fetch] go
    to the secondary only: the primary store is left as it is, the
    secondary is called once, and its outcome is the outcome; a failing
    [Save] says the primary was disabled and names the secondary's
    cause. *)
Theorem disabled_primary_routes_to_secondary (snap : Snapshot) (rc : ReadCloser)
    (ds : DualSnapStore (Spy P) (Spy Q)) :
  Dual.isPrimaryDisabled ds = true →
  rcErr rc = None →
  (primary (snd (Dual.Save snap rc ds)) = primary ds ∧
   saveCalls (secondary (snd (Dual.Save snap rc ds))) = S (saveCalls (secondary ds)) ∧
   (fst (storeSave snap (NopCloser (rcData rc)) (spied (secondary ds))) = None →
    fst (Dual.Save snap rc ds) = None) ∧
   (∀ e2, fst (storeSave snap (NopCloser (rcData rc)) (spied (secondary ds))) = Some e2 →
      fst (Dual.Save snap rc ds) =
        Errorf ("failed to save snapshot " +:+ SnapName snap +:+
                " to both endpoints - Primary: primary endpoint disabled due to " +:+
                "repeated failures, Secondary: " +:+ errText e2))) ∧
  (primary (snd (Dual.Fetch snap ds)) = primary ds ∧
   fetchCalls (secondary (snd (Dual.Fetch snap ds))) = S (fetchCalls (secondary ds)) ∧
   (snd (fst (storeFetch snap (spied (secondary ds)))) = None →
    fst (Dual.Fetch snap ds) = fst (storeFetch snap (spied (secondary ds))))).
Proof.
  intros Hd Hrc. split.
  - unfold Dual.Save, ReadAll. rewrite Hrc, Hd. simpl. unfold Dual.saveSecondary. simpl.
    destruct (storeSave snap (NopCloser (rcData rc)) (spied (secondary ds))) as [[e|] q];
      simpl; repeat split; try reflexivity; try discriminate.
    intros e2 [= ->]. reflexivity.
  - unfold Dual.Fetch. rewrite Hd. simpl. unfold Dual.fetchSecondary. simpl.
    destruct (storeFetch snap (spied (secondary ds))) as [[r [e|]] q];
      simpl; repeat split; try reflexivity; discriminate.
Qed.

(** X5.  [Fetch] on an enabled store.  When the primary has the snapshot,
    its stream is returned, the secondary is not called and the breaker is
    reset; when the primary fails, whatever the class of its error, and
    the secondary has the snapshot, the secondary's stream is returned
    with no error, each store having been called once. *)
Theorem Fetch_prefers_primary_then_secondary (snap : Snapshot)
    (ds : DualSnapStore (Spy P) (Spy Q)) :
  Dual.isPrimaryDisabled ds = false →
  (snd (fst (storeFetch snap (spied (primary ds)))) = None →
   fst (Dual.Fetch snap ds) = fst (storeFetch snap (spied (primary ds))) ∧
   secondary (snd (Dual.Fetch snap ds)) = secondary ds ∧
   fetchCalls (primary (snd (Dual.Fetch snap ds))) = S (fetchCalls (primary ds)) ∧
   primaryFailed (snd (Dual.Fetch snap ds)) = false ∧
   primaryFailCount (snd (Dual.Fetch snap ds)) = 0) ∧
  (is_Some (snd (fst (storeFetch snap (spied (primary ds))))) →
   snd (fst (storeFetch snap (spied (secondary ds)))) = None →
   fst (Dual.Fetch snap ds) = fst (storeFetch snap (spied (secondary ds))) ∧
   fetchCalls (primary (snd (Dual.Fetch snap ds))) = S (fetchCalls (primary ds)) ∧
   fetchCalls (secondary (snd (Dual.Fetch snap ds))) = S (fetchCalls (secondary ds))).
Proof.
  intros Hd. unfold Dual.Fetch. rewrite Hd. simpl.
  destruct (storeFetch snap (spied (primary ds))) as [[r1 [e1|]] p]; simpl.
  - split; [discriminate|]. intros _ Hq.
    unfold Dual.fetchSecondary, Dual.recordPrimaryFailure.
    destruct (isTransientError (Some e1)); simpl.
    all: destruct (storeFetch snap (spied (secondary ds))) as [[r2 e2] q].
    all: simpl in Hq; subst e2; simpl; repeat split; reflexivity.
  - split; [|intros [e He]; discriminate He].
    intros _. repeat split; reflexivity.
Qed.

(** X6.  In every store reached from [NewDualSnapStore] by calls made one
    after the other, whatever the stores answer: the failure counter is
    between 0 and 3, it is 0 while the flag is off, and the primary is
    disabled exactly when the counter is 3. *)
Theorem breaker_invariant (ops : list Dual.Op) (p : P) (q : Q) :
  0 <= primaryFailCount (Dual.run Less ops (Dual.NewDualSnapStore p q)) <= 3 ∧
  (primaryFailed (Dual.run Less ops (Dual.NewDualSnapStore p q)) = false →
   primaryFailCount (Dual.run Less ops (Dual.NewDualSnapStore p q)) = 0) ∧
  (Dual.isPrimaryDisabled (Dual.run Less ops (Dual.NewDualSnapStore p q)) = true ↔
   primaryFailCount (Dual.run Less ops (Dual.NewDualSnapStore p q)) = 3).
Proof.
  assert (Hinv : ∀ (l : list Dual.Op) (ds : DualSnapStore P Q),
             Dual.breakerInv ds → Dual.breakerInv (Dual.run Less l ds)).
  { induction l as [|op l IH]; intros ds Hi; simpl; [exact Hi|].
    apply IH, exec_breakerInv, Hi. }
  destruct (Hinv ops (Dual.NewDualSnapStore p q)) as [Hr Hz].
  { split; [unfold Dual.counterInRange; simpl; lia|reflexivity]. }
  unfold Dual.counterInRange in Hr. split; [exact Hr|]. split; [exact Hz|].
  rewrite isPrimaryDisabled_iff. split.
  - intros [_ H3]. lia.
  - intros E. split; [|lia].
    destruct (primaryFailed _) eqn:F; [reflexivity|]. rewrite Hz in E by reflexivity. lia.
Qed.

(** X7.  [List] calls both stores once whatever the breaker says and
    whichever cases its selects take, and leaves the breaker alone; every
    entry it returns was listed by one of the two stores, and it returns
    no entry when it returns an error. *)
Theorem List_contacts_both_and_invents_nothing (includeAll : bool)
    (selP selQ : Dual.SelectCase) (ds : DualSnapStore (Spy P) (Spy Q)) :
  listCalls (primary (snd (Dual.List Less includeAll selP selQ ds))) =
    S (listCalls (primary ds)) ∧
  listCalls (secondary (snd (Dual.List Less includeAll selP selQ ds))) =
    S (listCalls (secondary ds)) ∧
  primaryFailed (snd (Dual.List Less includeAll selP selQ ds)) = primaryFailed ds ∧
  primaryFailCount (snd (Dual.List Less includeAll selP selQ ds)) = primaryFailCount ds ∧
  (∀ x, x ∈ fst (fst (Dual.List Less includeAll selP selQ ds)) →
        x ∈ fst (fst (storeList includeAll (spied (primary ds)))) ∨
        x ∈ fst (fst (storeList includeAll (spied (secondary ds))))) ∧
  (is_Some (snd (fst (Dual.List Less includeAll selP selQ ds))) →
   fst (fst (Dual.List Less includeAll selP selQ ds)) = []).
Proof.
  unfold Dual.List. simpl.
  destruct (storeList includeAll (spied (primary ds))) as [[sp ep] p].
  destruct (storeList includeAll (spied (secondary ds))) as [[sq eq] q]. simpl.
  assert (Hsub : ∀ sel snaps err x, x ∈ fst (Dual.collect sel snaps err) → x ∈ snaps).
  { intros [] snaps [e|] x; simpl; auto; intros Hx; inversion Hx. }
  pose proof (Hsub selP sp ep) as HP. pose proof (Hsub selQ sq eq) as HQ.
  destruct (Dual.collect selP sp ep) as [ps pe].
  destruct (Dual.collect selQ sq eq) as [qs qe]. simpl in HP, HQ.
  assert (Hm : ∀ x, x ∈ Dual.mergeSnapshots Less ps qs → x ∈ sp ∨ x ∈ sq).
  { intros x Hx. apply (elem_of_mergeSnapshots Less) in Hx.
    apply (snapMapOf_key Less) in Hx as [_ Hx].
    apply elem_of_app in Hx as [Hx|Hx]; [left; apply HP|right; apply HQ]; exact Hx. }
  destruct pe as [e1|], qe as [e2|]; simpl.
  1: destruct (_ && _); simpl.
  all: repeat split; try reflexivity; auto.
  all: try (intros x Hx; inversion Hx).
  all: intros [e He]; discriminate He.
Qed.

End DualMore.

(** ** The merge, by key *)

Section MergeMore.
Variable Less : Snapshot → Snapshot → bool.





End MergeMore.

(** ** The dual store over resilient stores *)

Section DualOverResilient.
Context {A B : Type} `{SnapStore A} `{SnapStore B}.
Variable Less : Snapshot → Snapshot → bool.

(** X10.  A dual store whose two stores are resilient wrappers, as the
    resilient resolver builds it for S3, never returns the "both endpoints
    temporarily unavailable" error from [List]: when both wrapped listings
    fail with transient errors, [List] returns an empty list and no error,
    whichever cases its selects take; and any error it does return is the
    "failed to list snapshots from both endpoints" one. *)
Theorem List_over_resilient_hides_outage (includeAll : bool)
    (selP selQ : Dual.SelectCase)
    (ds : DualSnapStore (ResilientS3SnapStore A) (ResilientS3SnapStore B)) :
  (isTransientError (snd (fst (storeList includeAll (S3SnapStore (primary ds))))) = true →
   isTransientError (snd (fst (storeList includeAll (S3SnapStore (secondary ds))))) = true →
   fst (Dual.List Less includeAll selP selQ ds) = ([], None)) ∧
  (∀ e, snd (fst (Dual.List Less includeAll selP selQ ds)) = Some e →
     HasPrefix (errText e) "failed to list snapshots from both endpoints" = true).
Proof.
  unfold Dual.List. simpl. unfold Resilient.List, Resilient.failedTransiently,
    Resilient.IsTransientError.
  destruct (storeList includeAll (S3SnapStore (primary ds))) as [[sp ep] a].
  destruct (storeList includeAll (S3SnapStore (secondary ds))) as [[sq eq] b].
  simpl. split.
  - intros T1 T2. destruct ep as [e1|]; [|discriminate T1].
    destruct eq as [e2|]; [|discriminate T2]. rewrite T1, T2. simpl.
    destruct selP, selQ; reflexivity.
  - intros e.
    destruct ep as [e1|], eq as [e2|];
      try destruct (isTransientError (Some e1)) eqn:T1;
      try destruct (isTransientError (Some e2)) eqn:T2;
      destruct selP, selQ; simpl; try discriminate.
    rewrite T1. simpl. intros [= <-]. reflexivity.
Qed.

End DualOverResilient.

(** ** Classification and wrapped errors *)

Lemma HasPrefix_append_l t s sub : HasPrefix t sub = true → HasPrefix (t +:+ s) sub = true.
Proof.
  revert sub. induction t as [|b t IH]; intros [|a p]; simpl; try discriminate.
  - intros _. destruct s; reflexivity.
  - reflexivity.
  - destruct (Ascii.eqb a b); [apply IH|discriminate].
Qed.

Lemma Contains_append_l t s sub : Contains t sub = true → Contains (t +:+ s) sub = true.
Proof.
  induction t as [|b t IH]; intros Hc; rewrite Contains_unfold in Hc.
  - rewrite orb_false_r in Hc. rewrite Contains_unfold.
    rewrite (HasPrefix_append_l "" s sub Hc). reflexivity.
  - change (String b t +:+ s) with (String b (t +:+ s)).
    change (Contains (String b (t +:+ s)) sub)
      with (HasPrefix (String b (t +:+ s)) sub || Contains (t +:+ s) sub).
    apply orb_true_iff in Hc as [Hp|Hc].
    + change (String b (t +:+ s)) with (String b t +:+ s).
      rewrite (HasPrefix_append_l (String b t) s sub Hp). reflexivity.
    + rewrite (IH Hc). apply orb_true_r.
Qed.

Lemma textTransient_wrapped pre t post :
  textTransient t = true → textTransient (pre +:+ t +:+ post) = true.
Proof.
  unfold textTransient. rewrite !orb_true_iff.
  assert (Hm : ∀ sub, Contains t sub = true → Contains (pre +:+ t +:+ post) sub = true).
  { intros sub Hc. apply Contains_append_r, Contains_append_l, Hc. }
  intuition auto.
Qed.

Lemma isTransientError_split g :
  isTransientError (Some g) =
    textTransient (errText g) ||
    match netError g with
    | Some (timeout, temporary) => timeout || temporary
    | None => false
    end.
Proof.
  unfold isTransientError, textTransient.
  destruct (Contains (errText g) "no such host"),
    (Contains (errText g) "dial tcp: lookup"),
    (Contains (errText g) "request send failed"),
    (Contains (errText g) "connection refused"),
    (Contains (errText g) "connection timeout"),
    (Contains (errText g) "i/o timeout"); reflexivity.
Qed.

Lemma isTransientError_Errorf text : isTransientError (Errorf text) = textTransient text.
Proof. unfold Errorf. rewrite isTransientError_split. simpl. apply orb_false_r. Qed.

(** X11.  An error made by [fmt.Errorf] is classified by its text alone.
    So a transient classification that rests on one of the six text
    signatures survives any wrapping that prints the error with [%v],
    while one that rests only on the [net.Error] capability is lost by
    it.  Every error whose text carries a signature is transient for the
    runtime classifier and for the one used at construction, and the
    latter never looks at the capability. *)
Theorem classification_under_wrapping :
  (∀ text, isTransientError (Errorf text) = textTransient text) ∧
  (∀ pre post g, textTransient (errText g) = true →
     isTransientError (Errorf (pre +:+ fmtV (Some g) +:+ post)) = true) ∧
  (∀ g, textTransient (errText g) = false →
     isTransientError (Errorf (fmtV (Some g))) = false) ∧
  (∀ g, textTransient (errText g) = true →
     isTransientError (Some g) = true ∧ isSnapstoreTransientError (Some g) = true) ∧
  (∀ g n, isSnapstoreTransientError (Some g) =
          isSnapstoreTransientError (Some {| errText := errText g; netError := n |})).
Proof.
  pose proof isTransientError_Errorf as Hf.
  split; [exact Hf|]. split; [|split; [|split]].
  - intros pre post g Ht. rewrite Hf. simpl. apply textTransient_wrapped, Ht.
  - intros g Ht. rewrite Hf. simpl. exact Ht.
  - intros g Ht. split; [rewrite isTransientError_split, Ht; reflexivity|].
    unfold textTransient in Ht. unfold isSnapstoreTransientError.
    destruct (Contains (errText g) "no such host"),
      (Contains (errText g) "dial tcp: lookup"),
      (Contains (errText g) "request send failed"),
      (Contains (errText g) "connection refused"),
      (Contains (errText g) "connection timeout"),
      (Contains (errText g) "i/o timeout"); try reflexivity; discriminate Ht.
  - intros g n. reflexivity.
Qed.


(** ** The resolver: results, decisions, the host *)

Section ResolverMore.
Import Resolver.
Variable backupVersionV2 : string.
Variable HasSecondaryEndpoint : SnapstoreConfig → bool.
Variable GetSecondaryConfig : SnapstoreConfig → option SnapstoreConfig.

Lemma newStore_xor h s : storeXorError (newStore h s).
Proof. unfold newStore. destruct (construct h s); exact I. Qed.

Lemma providerSwitch_xor c identifier h :
  storeXorError (resultOf (providerSwitch c identifier h)).
Proof.
  unfold providerSwitch, resultOf.
  destruct (Provider c); simpl; try apply newStore_xor; try exact I.
  all: destruct (HasPrefix _ _); simpl; [apply newStore_xor|].
  all: destruct (homeDir h) as [d [e|]]; simpl; [exact I|apply newStore_xor].
Qed.

Lemma onlyCreatesDirs_refl h : onlyCreatesDirs h h.
Proof. unfold onlyCreatesDirs. repeat split; reflexivity. Qed.

Lemma onlyCreatesDirs_trans h1 h2 h3 :
  onlyCreatesDirs h1 h2 → onlyCreatesDirs h2 h3 → onlyCreatesDirs h1 h3.
Proof.
  unfold onlyCreatesDirs. intros (A & A1 & A2 & A3 & A4 & A5) (B & B1 & B2 & B3 & B4 & B5).
  repeat split; try congruence. set_solver.
Qed.

(** A single resolve stops with an error before the provider switch, or
    runs the switch on a configuration with the defaults filled in and a
    temporary directory that exists. *)
Lemma getSingle_cases c identifier h :
  (∃ e, resultOf (getSingleSnapstoreWithIdentifier backupVersionV2 c identifier h) =
          (None, Some e) ∧
        hostAfter (getSingleSnapstoreWithIdentifier backupVersionV2 c identifier h) = h) ∨
  (∃ c3 h3, defaultsOnly c c3 ∧ onlyCreatesDirs h h3 ∧ TempDir c3 ∈ dirs h3 ∧
            getSingleSnapstoreWithIdentifier backupVersionV2 c identifier h =
              providerSwitch c3 identifier h3).
Proof.
  unfold getSingleSnapstoreWithIdentifier.
  set (c1 := if isEmpty (Prefix c) then setPrefix _ c else c).
  assert (H1 : defaultsOnly c c1).
  { unfold c1. destruct (isEmpty (Prefix c)) eqn:E;
      [apply defaultsOnly_setPrefix, E|apply defaultsOnly_refl]. }
  set (c2 := if isEmpty (Container c1) then _ else c1).
  assert (H2 : defaultsOnly c1 c2).
  { unfold c2. destruct (isEmpty (Container c1)) eqn:E; [|apply defaultsOnly_refl].
    destruct (IsSource c1); apply defaultsOnly_setContainer, E. }
  destruct (_ && _); [left; eexists; split; reflexivity|].
  rewrite length_zero_isEmpty.
  set (c3 := if isEmpty (TempDir c2) then _ else c2).
  assert (H3 : defaultsOnly c c3).
  { eapply defaultsOnly_trans; [exact H1|]. eapply defaultsOnly_trans; [exact H2|].
    unfold c3. destruct (isEmpty (TempDir c2)) eqn:E;
      [apply defaultsOnly_setTempDir, E|apply defaultsOnly_refl]. }
  destruct (Stat h (TempDir c3)) eqn:ES.
  - right. exists c3, h. split; [exact H3|]. split; [apply onlyCreatesDirs_refl|].
    split; [|reflexivity]. unfold Stat in ES.
    destruct (statFailure h (TempDir c3)); [discriminate|].
    destruct (decide (TempDir c3 ∈ dirs h)); [assumption|discriminate].
  - unfold MkdirAll. destruct (mkdirFailure h (TempDir c3)) as [e|].
    + left. eexists. split; reflexivity.
    + right. eexists c3, _. split; [exact H3|]. split; [|split; [|reflexivity]].
      * unfold onlyCreatesDirs. simpl. repeat split; try reflexivity. set_solver.
      * simpl. set_solver.
  - left. eexists. split; reflexivity.
Qed.

Lemma getSingle_xor c identifier h :
  storeXorError (resultOf (getSingleSnapstoreWithIdentifier backupVersionV2 c identifier h)).
Proof.
  destruct (getSingle_cases c identifier h) as [(e & -> & _)|(c3 & h3 & _ & _ & _ & ->)];
    [exact I|apply providerSwitch_xor].
Qed.

(** The resilient single resolve is the plain one with an S3 store
    wrapped: same error, same configuration, same host. *)
Lemma createResilientSingle_spec c identifier h :
  createResilientSingleSnapstoreWithIdentifier backupVersionV2 c identifier h =
    match getSingleSnapstoreWithIdentifier backupVersionV2 c identifier h with
    | ((Some s, None), c', h') =>
        ((Some (if providerIs (Provider c') SnapstoreProviderS3 then ResilientS3 s else s),
          None), c', h')
    | ((_, Some e), c', h') => ((None, Some e), c', h')
    | ((None, None), c', h') => ((None, None), c', h')
    end.
Proof.
  unfold createResilientSingleSnapstoreWithIdentifier.
  pose proof (getSingleSnapstoreWithIdentifier_config backupVersionV2 c identifier h)
    as (Hprov & _).
  destruct (getSingle_cases c identifier h)
    as [(e & He & _)|(c3 & h3 & (Hp3 & _) & _ & _ & Hsw)].
  - unfold resultOf in He.
    destruct (getSingleSnapstoreWithIdentifier backupVersionV2 c identifier h)
      as [[[store err] c'] h']. simpl in He. injection He as -> ->. reflexivity.
  - rewrite Hsw in *. unfold configAfter in Hprov.
    destruct (providerSwitch c3 identifier h3) as [[[store [e|]] c'] h'] eqn:E;
      [destruct store; reflexivity|].
    destruct store as [s|]; [|destruct (providerIs _ _); reflexivity].
    simpl in Hprov.
    destruct (providerIs (Provider c') SnapstoreProviderS3) eqn:Hp; [|reflexivity].
    assert (HS3 : Provider c3 = SnapstoreProviderS3).
    { rewrite Hp3, <- Hprov. destruct (Provider c'); try discriminate Hp. reflexivity. }
    revert E. unfold providerSwitch. rewrite HS3. unfold newStore.
    destruct (construct _ _); simpl; intros [= <- <- <-]. reflexivity.
Qed.

Lemma createResilientSingle_xor c identifier h :
  storeXorError
    (resultOf (createResilientSingleSnapstoreWithIdentifier backupVersionV2 c identifier h)).
Proof.
  rewrite createResilientSingle_spec.
  pose proof (getSingle_xor c identifier h) as Hx.
  destruct (getSingleSnapstoreWithIdentifier backupVersionV2 c identifier h)
    as [[[[s|] [e|]] c'] h']; first [exact I|destruct Hx].
Qed.


(** X14.  The resilient resolver with a secondary endpoint configured:
    what it returns, from what the two single resolves return.  Both
    built: a dual store.  One built: that store alone and no error,
    whatever the class of the other's error.  None built: an error, "failed
    to create both" when neither cause is transient for the construction
    classifier and "all endpoints temporarily unavailable" otherwise. *)
Theorem resilient_resolve_decision_table (config secondaryConfig : SnapstoreConfig)
    (h : Host) :
  HasSecondaryEndpoint config = true →
  GetSecondaryConfig
    (configAfter (createResilientSingleSnapstore backupVersionV2 config h)) =
    Some secondaryConfig →
  resultOf (GetResilientSnapstore backupVersionV2 HasSecondaryEndpoint
              GetSecondaryConfig config h) =
    match resultOf (createResilientSingleSnapstore backupVersionV2 config h),
          resultOf (createResilientSingleSnapstoreWithIdentifier backupVersionV2
                      secondaryConfig "secondary"
                      (hostAfter (createResilientSingleSnapstore backupVersionV2 config h)))
    with
    | (Some p, _), (Some s, _) => (Some (DualStore (Some p) (Some s)), None)
    | (Some p, _), (None, _) => (Some p, None)
    | (None, _), (Some s, _) => (Some s, None)
    | (None, pe), (None, se) =>
        (None,
         Errorf ((if negb (isSnapstoreTransientError pe) &&
                     negb (isSnapstoreTransientError se)
                  then "failed to create both primary and secondary snapstores - Primary: "
                  else "all endpoints temporarily unavailable - Primary: ") +:+
                 fmtV pe +:+ ", Secondary: " +:+ fmtV se))
    end.
Proof.
  intros Hs Hc. unfold GetResilientSnapstore. rewrite Hs.
  unfold createResilientDualSnapstore.
  pose proof (createResilientSingle_xor config "primary" h) as X1.
  unfold createResilientSingleSnapstore in *.
  destruct (createResilientSingleSnapstoreWithIdentifier backupVersionV2 config "primary" h)
    as [[[[p|] [e1|]] c'] h']; try destruct X1.
  all: unfold configAfter, hostAfter in *; simpl in Hc |- *; rewrite Hc.
  all: pose proof (createResilientSingle_xor secondaryConfig "secondary" h') as X2.
  all: destruct (createResilientSingleSnapstoreWithIdentifier backupVersionV2
                   secondaryConfig "secondary" h') as [[[[s|] [e2|]] c2] h2];
    try destruct X2; unfold resultOf; simpl; try reflexivity.
  destruct (negb _ && negb _); reflexivity.
Qed.

(** X15.  The basic resolver with a secondary endpoint configured is all
    or nothing: it returns a store exactly when the primary single resolve
    succeeds, a secondary configuration is there and its single resolve
    succeeds too; the store is then the dual store of the two.  When the
    primary fails, the error names the primary and the secondary is not
    tried: the host is as the primary resolve left it. *)
Theorem basic_dual_resolve_all_or_nothing (config : SnapstoreConfig) (h : Host) :
  HasSecondaryEndpoint config = true →
  (is_Some (fst (resultOf (GetSnapstore backupVersionV2 HasSecondaryEndpoint
                             GetSecondaryConfig config h))) ↔
   snd (resultOf (getSingleSnapstore backupVersionV2 config h)) = None ∧
   ∃ sc, GetSecondaryConfig (configAfter (getSingleSnapstore backupVersionV2 config h)) =
           Some sc ∧
         snd (resultOf (getSingleSnapstore backupVersionV2 sc
                          (hostAfter (getSingleSnapstore backupVersionV2 config h)))) =
           None) ∧
  (∀ sc, snd (resultOf (getSingleSnapstore backupVersionV2 config h)) = None →
     GetSecondaryConfig (configAfter (getSingleSnapstore backupVersionV2 config h)) =
       Some sc →
     snd (resultOf (getSingleSnapstore backupVersionV2 sc
                      (hostAfter (getSingleSnapstore backupVersionV2 config h)))) = None →
     resultOf (GetSnapstore backupVersionV2 HasSecondaryEndpoint
                 GetSecondaryConfig config h) =
       (Some (DualStore
                (fst (resultOf (getSingleSnapstore backupVersionV2 config h)))
                (fst (resultOf (getSingleSnapstore backupVersionV2 sc
                        (hostAfter (getSingleSnapstore backupVersionV2 config h)))))),
        None)) ∧
  (∀ e, snd (resultOf (getSingleSnapstore backupVersionV2 config h)) = Some e →
     resultOf (GetSnapstore backupVersionV2 HasSecondaryEndpoint
                 GetSecondaryConfig config h) =
       (None, Errorf ("failed to create primary snapstore: " +:+ errText e)) ∧
     hostAfter (GetSnapstore backupVersionV2 HasSecondaryEndpoint
                  GetSecondaryConfig config h) =
       hostAfter (getSingleSnapstore backupVersionV2 config h)).
Proof.
  intros Hs. unfold GetSnapstore. rewrite Hs. unfold GetDualSnapstore.
  destruct (getSingleSnapstore backupVersionV2 config h) as [[[p [e1|]] c'] h'];
    unfold resultOf, configAfter, hostAfter; simpl.
  - split; [|split].
    + split; [intros [x Hx]; discriminate Hx|intros [Hn _]; discriminate Hn].
    + intros sc Hn. discriminate Hn.
    + intros e [= <-]. split; reflexivity.
  - split; [|split; [|intros e He; discriminate He]].
    + destruct (GetSecondaryConfig c') as [sc|]; simpl.
      * destruct (getSingleSnapstore backupVersionV2 sc h') as [[[s0 [e2|]] c2] h2] eqn:E2;
          simpl.
        -- split; [intros [x Hx]; discriminate Hx|].
           intros (_ & sc' & [= <-] & Hn). rewrite E2 in Hn. discriminate Hn.
        -- split; [intros _|eauto]. split; [reflexivity|]. exists sc.
           rewrite E2. split; reflexivity.
      * split; [intros [x Hx]; discriminate Hx|].
        intros (_ & sc' & Hn & _). discriminate Hn.
    + intros sc _ ->. simpl.
      destruct (getSingleSnapstore backupVersionV2 sc h') as [[[s0 [e2|]] c2] h2];
        simpl; [discriminate|reflexivity].
Qed.

Lemma providerSwitch_host c identifier h :
  hostAfter (providerSwitch c identifier h) = h ∧
  TempDir (configAfter (providerSwitch c identifier h)) = TempDir c.
Proof.
  unfold providerSwitch, hostAfter, configAfter.
  destruct (Provider c); simpl; auto.
  all: destruct (isEmpty (Container c)); destruct (HasPrefix _ _); simpl; auto.
  all: destruct (homeDir h) as [d [e|]]; simpl; auto.
Qed.

Lemma getSingle_host c identifier h :
  onlyCreatesDirs h
    (hostAfter (getSingleSnapstoreWithIdentifier backupVersionV2 c identifier h)) ∧
  (snd (resultOf (getSingleSnapstoreWithIdentifier backupVersionV2 c identifier h)) = None →
   TempDir (configAfter (getSingleSnapstoreWithIdentifier backupVersionV2 c identifier h))
     ∈ dirs (hostAfter (getSingleSnapstoreWithIdentifier backupVersionV2 c identifier h))).
Proof.
  destruct (getSingle_cases c identifier h)
    as [(e & He & Hh)|(c3 & h3 & _ & Ho & Ht & ->)].
  - rewrite Hh, He. split; [apply onlyCreatesDirs_refl|discriminate].
  - destruct (providerSwitch_host c3 identifier h3) as [-> ->]. auto.
Qed.

(** X16.  All a resolver call does to the host is create directories:
    the directories that were there are still there, the environment and
    everything else is as before.  And when the basic resolver returns no
    error, the temporary directory named by the configuration it leaves
    behind exists on the host. *)
Theorem resolver_only_creates_directories (config : SnapstoreConfig) (h : Host) :
  onlyCreatesDirs h
    (hostAfter (GetSnapstore backupVersionV2 HasSecondaryEndpoint
                  GetSecondaryConfig config h)) ∧
  onlyCreatesDirs h
    (hostAfter (GetResilientSnapstore backupVersionV2 HasSecondaryEndpoint
                  GetSecondaryConfig config h)) ∧
  (snd (resultOf (GetSnapstore backupVersionV2 HasSecondaryEndpoint
                    GetSecondaryConfig config h)) = None →
   TempDir (configAfter (GetSnapstore backupVersionV2 HasSecondaryEndpoint
                           GetSecondaryConfig config h))
     ∈ dirs (hostAfter (GetSnapstore backupVersionV2 HasSecondaryEndpoint
                          GetSecondaryConfig config h))).
Proof.
  assert (Hr : ∀ c i hh, onlyCreatesDirs hh
            (hostAfter (createResilientSingleSnapstoreWithIdentifier backupVersionV2
                          c i hh))).
  { intros c i hh. rewrite createResilientSingle_spec.
    destruct (getSingle_host c i hh) as [Ho _].
    destruct (getSingleSnapstoreWithIdentifier backupVersionV2 c i hh)
      as [[[[s|] [e|]] c'] h']; exact Ho. }
  split; [|split].
  - unfold GetSnapstore. destruct (HasSecondaryEndpoint config);
      [|apply getSingle_host].
    unfold GetDualSnapstore, getSingleSnapstore.
    destruct (getSingle_host config "primary" h) as [H1 _].
    destruct (getSingleSnapstoreWithIdentifier backupVersionV2 config "primary" h)
      as [[[p [e1|]] c'] h']; [exact H1|].
    destruct (GetSecondaryConfig c') as [sc|]; [|exact H1].
    destruct (getSingle_host sc "primary" h') as [H2 _].
    destruct (getSingleSnapstoreWithIdentifier backupVersionV2 sc "primary" h')
      as [[[s0 [e2|]] c2] h2]; exact (onlyCreatesDirs_trans _ _ _ H1 H2).
  - unfold GetResilientSnapstore. destruct (HasSecondaryEndpoint config); [|apply Hr].
    unfold createResilientDualSnapstore, createResilientSingleSnapstore.
    pose proof (Hr config "primary" h) as H1.
    destruct (createResilientSingleSnapstoreWithIdentifier backupVersionV2
                config "primary" h) as [[[p pe] c'] h'].
    destruct (GetSecondaryConfig c') as [sc|]; [|destruct pe; exact H1].
    pose proof (Hr sc "secondary" h') as H2.
    destruct (createResilientSingleSnapstoreWithIdentifier backupVersionV2
                sc "secondary" h') as [[[s0 se] c2] h2].
    pose proof (onlyCreatesDirs_trans _ _ _ H1 H2) as H12.
    match goal with |- context [if ?b then _ else _] => destruct b end; [exact H12|].
    destruct p, s0; exact H12.
  - unfold GetSnapstore. destruct (HasSecondaryEndpoint config);
      [|apply getSingle_host].
    unfold GetDualSnapstore, getSingleSnapstore.
    destruct (getSingle_host config "primary" h) as [_ H1].
    destruct (getSingleSnapstoreWithIdentifier backupVersionV2 config "primary" h)
      as [[[p [e1|]] c'] h']; [discriminate|].
    specialize (H1 eq_refl). unfold configAfter, hostAfter in H1. simpl in H1.
    destruct (GetSecondaryConfig c') as [sc|]; [|discriminate].
    destruct (getSingle_host sc "primary" h') as [(H2 & _) _].
    destruct (getSingleSnapstoreWithIdentifier backupVersionV2 sc "primary" h')
      as [[[s0 [e2|]] c2] h2]; [discriminate|].
    intros _. unfold configAfter, hostAfter in *. simpl in *. set_solver.
Qed.

#[local] Arguments isEmpty : simpl never.
#[local] Arguments Stat : simpl never.
#[local] Arguments providerSwitch : simpl never.

(** X17.  What a single resolve rejects.  A configuration with no
    container, for a provider other than the local one, on a host whose
    container variable is not set, is rejected with "storage container name
    not specified" before anything is done to the host or to the
    temporary-directory setting.  A provider that is none of the known ones
    never gets a store. *)
Theorem single_resolve_rejections (config : SnapstoreConfig) (identifier : string)
    (h : Host) :
  (isEmpty (Container config) = true →
   isEmpty (Getenv h (if IsSource config then sourceEnvStorageContainer
                      else envStorageContainer)) = true →
   providerIs (Provider config) ProviderUnset = false →
   providerIs (Provider config) SnapstoreProviderLocal = false →
   resultOf (getSingleSnapstoreWithIdentifier backupVersionV2 config identifier h) =
     (None, Errorf "storage container name not specified") ∧
   hostAfter (getSingleSnapstoreWithIdentifier backupVersionV2 config identifier h) = h ∧
   TempDir (configAfter (getSingleSnapstoreWithIdentifier backupVersionV2
                           config identifier h)) = TempDir config) ∧
  (∀ name, Provider config = ProviderOther name →
     fst (resultOf (getSingleSnapstoreWithIdentifier backupVersionV2
                      config identifier h)) = None ∧
     (isEmpty (Container config) = false → isEmpty (TempDir config) = false →
      Stat h (TempDir config) = StatOk →
      resultOf (getSingleSnapstoreWithIdentifier backupVersionV2 config identifier h) =
        (None, Errorf ("unsupported storage provider : " +:+ name)))).
Proof.
  split.
  - intros Hc He Hu Hl. unfold getSingleSnapstoreWithIdentifier.
    assert (E : ∀ c1 : SnapstoreConfig, Container c1 = Container config →
                IsSource c1 = IsSource config →
                isEmpty (Container
                  (if isEmpty (Container c1) then
                     if IsSource c1 then setContainer (Getenv h sourceEnvStorageContainer) c1
                     else setContainer (Getenv h envStorageContainer) c1
                   else c1)) = true).
    { intros c1 E1 E2. rewrite E1, Hc, E2. destruct (IsSource config); exact He. }
    destruct (isEmpty (Prefix config)).
    all: rewrite E by reflexivity; cbn [andb].
    all: repeat match goal with
         | |- context [Provider (if ?b then _ else _)] => destruct b
         end; cbn [Provider setContainer setPrefix]; rewrite Hu, Hl; cbn [negb andb].
    all: unfold resultOf, hostAfter, configAfter; simpl; auto.
  - intros name Hp.
    assert (Hs : ∀ c3 h3, Provider c3 = ProviderOther name →
              resultOf (providerSwitch c3 identifier h3) =
                (None, Errorf ("unsupported storage provider : " +:+ name))).
    { intros c3 h3 E. unfold providerSwitch. rewrite E. reflexivity. }
    split.
    + destruct (getSingle_cases config identifier h)
        as [(e & -> & _)|(c3 & h3 & (Hp3 & _) & _ & _ & ->)]; [reflexivity|].
      rewrite Hs by congruence. reflexivity.
    + intros Hc Ht Hst. unfold getSingleSnapstoreWithIdentifier.
      destruct config as [pr co px td m1 m2 src sec sp sco spx sm1 sm2].
      cbn [Provider Container Prefix TempDir] in Hp, Hc, Ht, Hst. subst pr.
      simpl. destruct (isEmpty px).
      all: repeat (simpl; rewrite ?Hc, ?length_zero_isEmpty, ?Ht, ?Hst).
      all: apply Hs; reflexivity.
Qed.

End ResolverMore.

(** ** The chunk coordinator over a whole run *)

Section ChunkMore.
Import ChunkUpload.
Variable maxRetryAttempts : Z.

Lemma collectLoop_shape rs n st :
  let o := collectLoop maxRetryAttempts rs n st in
  (∃ consumed, rs = consumed ++ unread o ∧
     ∃ new, timers o = st ++ new ∧ (length new <= length consumed)%nat) ∧
  (∀ r, returned o = Some r →
     is_Some (err r) ∧ attempt (chunk_ r) = maxRetryAttempts ∧
     stopClosed o = true ∧ r ∈ rs) ∧
  (stopClosed o = false → unread o = [] ∧ returned o = None) ∧
  (returned o = None → stopClosed o = true → remaining o = 0).
Proof.
  revert n st. induction rs as [|r rs IH]; intros n st; cbn [collectLoop].
  - cbv zeta. cbn [unread timers returned stopClosed remaining]. split; [|split; [|split]].
    + exists []. split; [reflexivity|]. exists []. rewrite app_nil_r. auto.
    + discriminate.
    + auto.
    + discriminate.
  - destruct (err r) as [e|] eqn:He.
    + destruct (attempt (chunk_ r) =? maxRetryAttempts) eqn:Ha.
      * cbv zeta. cbn [unread timers returned stopClosed remaining].
        split; [|split; [|split]].
        -- exists [r]. split; [reflexivity|]. exists []. rewrite app_nil_r.
           split; [reflexivity|simpl; lia].
        -- intros r' [= <-]. rewrite He. apply Z.eqb_eq in Ha.
           split; [eauto|]. split; [exact Ha|]. split; [reflexivity|left].
        -- discriminate.
        -- discriminate.
      * match goal with |- context [collectLoop _ rs n ?st'] =>
          specialize (IH n st') end.
        cbv zeta in IH |- *. destruct IH as ((cons & Hc & new & Ht & Hl) & Hr & Hs & Hz).
        split; [|split; [|split]]; auto.
        -- exists (r :: cons). split; [simpl; congruence|].
           eexists (_ :: new). rewrite Ht, <- app_assoc. split; [reflexivity|simpl; lia].
        -- intros r' Hr'. destruct (Hr r' Hr') as (? & ? & ? & ?).
           repeat split; auto. right. assumption.
    + destruct (wrapInt (n - 1) =? 0) eqn:Hn.
      * cbv zeta. cbn [unread timers returned stopClosed remaining].
        split; [|split; [|split]].
        -- exists [r]. split; [reflexivity|]. exists []. rewrite app_nil_r.
           split; [reflexivity|simpl; lia].
        -- discriminate.
        -- discriminate.
        -- intros _ _. apply Z.eqb_eq, Hn.
      * specialize (IH (wrapInt (n - 1)) st).
        cbv zeta in IH |- *. destruct IH as ((cons & Hc & new & Ht & Hl) & Hr & Hs & Hz).
        split; [|split; [|split]]; auto.
        -- exists (r :: cons). split; [simpl; congruence|].
           exists new. split; [exact Ht|simpl; lia].
        -- intros r' Hr'. destruct (Hr r' Hr') as (? & ? & ? & ?).
           repeat split; auto. right. assumption.
Qed.

Lemma collectChunkUploadError_sound_aux (resCh : list chunkUploadResult) (noOfChunks : Z) :
  (∀ r, returned (collectChunkUploadError maxRetryAttempts resCh noOfChunks) = Some r →
     is_Some (err r) ∧ attempt (chunk_ r) = maxRetryAttempts ∧
     stopClosed (collectChunkUploadError maxRetryAttempts resCh noOfChunks) = true ∧
     r ∈ resCh) ∧
  (stopClosed (collectChunkUploadError maxRetryAttempts resCh noOfChunks) = false →
     unread (collectChunkUploadError maxRetryAttempts resCh noOfChunks) = []).
Proof.
  unfold collectChunkUploadError.
  destruct (collectLoop_shape resCh noOfChunks []) as (_ & Hr & Hs & _).
  split; [exact Hr|]. intros E. apply Hs, E.
Qed.

(** X18.  Whatever the results and the chunk count: the coordinator reads
    a front part of the results and leaves the rest; it starts at most one
    timer for each result it read; a result it returns is one of the
    results, a failure of a chunk at [maxRetryAttempts], and the stop
    channel is then closed; it leaves the stop channel open only when it
    read every result without returning one; and when it closes the stop
    channel and returns nil, the counter is at zero. *)
Theorem collectChunkUploadError_sound (resCh : list chunkUploadResult) (noOfChunks : Z) :
  (∃ consumed, resCh = consumed ++
       unread (collectChunkUploadError maxRetryAttempts resCh noOfChunks) ∧
     (length (timers (collectChunkUploadError maxRetryAttempts resCh noOfChunks)) <=
        length consumed)%nat) ∧
  (∀ r, returned (collectChunkUploadError maxRetryAttempts resCh noOfChunks) = Some r →
     is_Some (err r) ∧ attempt (chunk_ r) = maxRetryAttempts ∧
     stopClosed (collectChunkUploadError maxRetryAttempts resCh noOfChunks) = true ∧
     r ∈ resCh) ∧
  (stopClosed (collectChunkUploadError maxRetryAttempts resCh noOfChunks) = false →
     unread (collectChunkUploadError maxRetryAttempts resCh noOfChunks) = [] ∧
     returned (collectChunkUploadError maxRetryAttempts resCh noOfChunks) = None) ∧
  (returned (collectChunkUploadError maxRetryAttempts resCh noOfChunks) = None →
   stopClosed (collectChunkUploadError maxRetryAttempts resCh noOfChunks) = true →
   remaining (collectChunkUploadError maxRetryAttempts resCh noOfChunks) = 0).
Proof.
  unfold collectChunkUploadError.
  destruct (collectLoop_shape resCh noOfChunks []) as ((cons & Hc & new & Ht & Hl) & Hr & Hs & Hz).
  split; [|split; [|split]]; auto.
  exists cons. split; [exact Hc|]. rewrite Ht. simpl. exact Hl.
Qed.

Lemma collectLoop_never_completes rs n st :
  n <= 0 → - 2 ^ 62 <= n - Z.of_nat (length rs) →
  stopClosed (collectLoop maxRetryAttempts rs n st) = true →
  is_Some (returned (collectLoop maxRetryAttempts rs n st)).
Proof.
  revert n st. induction rs as [|r rs IH]; intros n st Hn Hl; cbn [collectLoop].
  - discriminate.
  - cbn [length] in Hl. destruct (err r) as [e|].
    + destruct (_ =? _); [intros _; eauto|]. apply IH; lia.
    + rewrite wrapInt_small by lia.
      destruct (n - 1 =? 0) eqn:E; [apply Z.eqb_eq in E; lia|]. apply IH; lia.
Qed.

(** X19.  Started with a chunk count that is zero or negative, the
    coordinator never reports completion: successes take the counter
    further below zero, so the stop channel is closed only by a failure at
    [maxRetryAttempts]. *)
Theorem collectChunkUploadError_without_chunks (resCh : list chunkUploadResult)
    (noOfChunks : Z) :
  noOfChunks <= 0 →
  - 2 ^ 62 <= noOfChunks - Z.of_nat (length resCh) →
  (stopClosed (collectChunkUploadError maxRetryAttempts resCh noOfChunks) = true →
   is_Some (returned (collectChunkUploadError maxRetryAttempts resCh noOfChunks))) ∧
  (Forall (λ r, terminal maxRetryAttempts r = false) resCh →
   stopClosed (collectChunkUploadError maxRetryAttempts resCh noOfChunks) = false ∧
   unread (collectChunkUploadError maxRetryAttempts resCh noOfChunks) = []).
Proof.
  intros Hn Hl. split; [apply collectLoop_never_completes; assumption|].
  intros Hall.
  destruct (collectChunkUploadError_sound_aux resCh noOfChunks) as (Hr & Hs).
  destruct (stopClosed (collectChunkUploadError maxRetryAttempts resCh noOfChunks)) eqn:E.
  - destruct (collectLoop_never_completes resCh noOfChunks [] Hn Hl E) as [r Hret].
    destruct (Hr r Hret) as ([e He] & Ha & _ & Hin).
    rewrite Forall_forall in Hall. specialize (Hall r Hin).
    unfold terminal in Hall. rewrite He, Ha, Z.eqb_refl in Hall. discriminate Hall.
  - split; [reflexivity|]. apply Hs. reflexivity.
Qed.

Lemma backoffTimers_withAttempt c x a k :
  backoffTimers (withAttempt c x) a k = backoffTimers c a k.
Proof. revert a. induction k as [|k IH]; intros a; [reflexivity|]. simpl. f_equal. apply IH. Qed.

Lemma collectLoop_failingAttempts e c k rest n st :
  0 <= attempt c → attempt c + Z.of_nat k = maxRetryAttempts → maxRetryAttempts <= 34 →
  collectLoop maxRetryAttempts (failingAttempts e c (S k) ++ rest) n st =
    mkOutcome (Some (mkResult (Some e) (withAttempt c maxRetryAttempts))) true n
      (st ++ backoffTimers c (attempt c) k) rest.
Proof.
  revert c st. induction k as [|k IH]; intros c st Ha Hk Hmax.
  - cbn [failingAttempts app collectLoop err chunk_ backoffTimers].
    replace (attempt c =? maxRetryAttempts) with true by (symmetry; apply Z.eqb_eq; lia).
    rewrite app_nil_r. do 3 f_equal. destruct c as [o s a i]. unfold withAttempt. simpl in *.
    f_equal. lia.
  - change (failingAttempts e c (S (S k)) ++ rest)
      with (mkResult (Some e) c ::
            (failingAttempts e (withAttempt c (attempt c + 1)) (S k) ++ rest)).
    cbn [collectLoop err chunk_].
    replace (attempt c =? maxRetryAttempts) with false by (symmetry; apply Z.eqb_neq; lia).
    rewrite IH by (cbn [withAttempt attempt]; lia).
    cbn [backoffTimers withAttempt attempt offset size id].
    assert (Hd : wrapInt (wrapInt (Z.shiftl 1 (attempt c)) * Second) =
                 2 ^ attempt c * Second).
    { rewrite Z.shiftl_1_l.
      assert (2 ^ attempt c <= 2 ^ 33) by (apply Z.pow_le_mono_r; lia).
      assert (0 < 2 ^ attempt c) by (apply Z.pow_pos_nonneg; lia).
      rewrite (wrapInt_small (2 ^ _)) by lia. apply wrapInt_small. unfold Second. lia. }
    rewrite Hd, wrapUint_small by lia. rewrite <- app_assoc.
    rewrite (backoffTimers_withAttempt c (attempt c + 1)). reflexivity.
Qed.

Lemma totalDelay_backoffTimers c a k :
  0 <= a → totalDelay (backoffTimers c a k) = (2 ^ (a + Z.of_nat k) - 2 ^ a) * Second.
Proof.
  unfold totalDelay. revert a. induction k as [|k IH]; intros a Ha.
  - simpl. rewrite Z.add_0_r. lia.
  - cbn [backoffTimers fmap list_fmap foldr after].
    change (foldr Z.add 0 (list_fmap _ _ after (backoffTimers c (a + 1) k)))
      with (foldr Z.add 0 (after <$> backoffTimers c (a + 1) k)).
    rewrite IH by lia.
    replace (a + Z.of_nat (S k)) with (a + 1 + Z.of_nat k) by lia.
    rewrite (Z.pow_add_r 2 a 1) by lia. lia.
Qed.

(** X20.  A chunk that fails at every upload, each of the coordinator's
    timers sending it back with the next attempt count: starting at
    attempt 0 with a maximum [m] of at most 34, the coordinator starts [m]
    timers of 1, 2, 4, ... seconds, [2 ^ m - 1] seconds in all, then at the
    failure with attempt [m] closes the stop channel and returns that
    failure; the chunk each timer sends is the chunk of the next
    result. *)
Theorem failing_chunk_is_given_up (e : GoError) (c : chunk)
    (rest : list chunkUploadResult) (noOfChunks : Z) :
  attempt c = 0 → 0 <= maxRetryAttempts <= 34 →
  collectChunkUploadError maxRetryAttempts
    (failingAttempts e c (S (Z.to_nat maxRetryAttempts)) ++ rest) noOfChunks =
    mkOutcome (Some (mkResult (Some e) (withAttempt c maxRetryAttempts))) true noOfChunks
      (backoffTimers c 0 (Z.to_nat maxRetryAttempts)) rest ∧
  totalDelay (backoffTimers c 0 (Z.to_nat maxRetryAttempts)) =
    (2 ^ maxRetryAttempts - 1) * Second ∧
  (∀ k t r, backoffTimers c 0 (Z.to_nat maxRetryAttempts) !! k = Some t →
     failingAttempts e c (S (Z.to_nat maxRetryAttempts)) !! S k = Some r →
     fire false t = Some (chunk_ r)).
Proof.
  intros Ha Hm. split; [|split].
  - unfold collectChunkUploadError. rewrite collectLoop_failingAttempts by lia.
    rewrite Ha. reflexivity.
  - rewrite totalDelay_backoffTimers by lia. rewrite Z2Nat.id by lia.
    rewrite Z.add_0_l. reflexivity.
  - rewrite <- Ha. clear Ha Hm. generalize (Z.to_nat maxRetryAttempts) as m.
    intros m. revert c. induction m as [|m IH]; intros c k t r Ht Hr; [discriminate Ht|].
    destruct k as [|k].
    + cbn in Ht, Hr. injection Ht as <-. destruct m; cbn in Hr; injection Hr as <-;
        reflexivity.
    + cbn [backoffTimers lookup list_lookup] in Ht.
      change (failingAttempts e c (S (S m)) !! S (S k))
        with (failingAttempts e (withAttempt c (attempt c + 1)) (S m) !! S k) in Hr.
      apply (IH (withAttempt c (attempt c + 1)) k t r); [|exact Hr].
      cbn [withAttempt attempt]. rewrite backoffTimers_withAttempt. exact Ht.
Qed.

End ChunkMore.

(** ** Helpers of the package *)

Section UtilsMore.
Import Utils.
Variable backupVersionV1 backupVersionV2 : string.
Variable syntaxError : string → GoError.

Lemma Replace1_unfold s old new :
  Replace1 s old new =
    if HasPrefix s old then new +:+ dropChars (String.length old) s
    else match s with
         | EmptyString => EmptyString
         | String c t => String c (Replace1 t old new)
         end.
Proof. destruct s; reflexivity. Qed.

Lemma HasPrefix_split s old :
  HasPrefix s old = true → s = old +:+ dropChars (String.length old) s.
Proof.
  revert old. induction s as [|b s IH]; intros [|a p]; simpl; try discriminate; auto.
  destruct (Ascii.eqb_spec a b) as [->|]; [|discriminate].
  intros Hp.
  change (String b s = String b (p +:+ dropChars (String.length p) s)).
  f_equal. apply IH, Hp.
Qed.

Lemma append_assoc_s (a b c : string) : (a +:+ b) +:+ c = a +:+ b +:+ c.
Proof.
  induction a as [|x a IH]; [reflexivity|].
  change (String x ((a +:+ b) +:+ c) = String x (a +:+ b +:+ c)).
  f_equal. exact IH.
Qed.

Lemma length_append_s (a b : string) :
  String.length (a +:+ b) = (String.length a + String.length b)%nat.
Proof.
  induction a as [|x a IH]; [reflexivity|].
  change (S (String.length (a +:+ b)) = S (String.length a + String.length b)).
  f_equal. exact IH.
Qed.

(** [Replace1] leaves a string without [old] alone and otherwise replaces
    the occurrence of [old] that starts first. *)
Lemma Replace1_spec s old new :
  (Contains s old = false → Replace1 s old new = s) ∧
  (Contains s old = true →
   ∃ pre post, s = pre +:+ old +:+ post ∧
               Replace1 s old new = pre +:+ new +:+ post ∧
               ∀ pre' post', s = pre' +:+ old +:+ post' →
                 (String.length pre <= String.length pre')%nat).
Proof.
  induction s as [|c t [IH0 IH1]]; rewrite Contains_unfold, Replace1_unfold.
  - rewrite orb_false_r. destruct (HasPrefix "" old) eqn:Hp; split; try discriminate; auto.
    intros _. exists "", (dropChars (String.length old) "").
    split; [apply HasPrefix_split, Hp|]. split; [reflexivity|]. intros; simpl; lia.
  - destruct (HasPrefix (String c t) old) eqn:Hp; cbn [orb].
    + split; [discriminate|]. intros _.
      exists "", (dropChars (String.length old) (String c t)).
      split; [apply HasPrefix_split, Hp|]. split; [reflexivity|]. intros; simpl; lia.
    + split.
      * intros Hc. rewrite (IH0 Hc). reflexivity.
      * intros Hc. destruct (IH1 Hc) as (pre & post & Hs & Hr & Hmin).
        exists (String c pre), post.
        split; [change (String c t = String c (pre +:+ old +:+ post)); congruence|].
        split; [change (String c (Replace1 t old new) = String c (pre +:+ new +:+ post));
                congruence|].
        intros [|c' pre'] post' E.
        -- change (String c t = old +:+ post') in E.
           rewrite E, HasPrefix_append in Hp. discriminate Hp.
        -- change (String c t = String c' (pre' +:+ old +:+ post')) in E.
           injection E as _ E. specialize (Hmin pre' post' E). simpl. lia.
Qed.

(** X21.  [adaptPrefix] returns the store prefix unchanged unless the
    snapshot's prefix has "/" + V1 in it and the store prefix has
    "/" + V2; in that case it returns the store prefix with the first
    "/" + V2 in it, and only that one, turned into "/" + V1: the result
    has "/" + V1 in it and differs in length by the difference of the two
    version names. *)
Theorem adaptPrefix_replaces_first_version (snap : Snapshot) (snapstorePrefix : string) :
  (Contains (Prefix snap) ("/" +:+ backupVersionV1) = false ∨
   Contains snapstorePrefix ("/" +:+ backupVersionV2) = false →
   adaptPrefix backupVersionV1 backupVersionV2 snap snapstorePrefix = snapstorePrefix) ∧
  (Contains (Prefix snap) ("/" +:+ backupVersionV1) = true →
   Contains snapstorePrefix ("/" +:+ backupVersionV2) = true →
   ∃ pre post,
     snapstorePrefix = pre +:+ ("/" +:+ backupVersionV2) +:+ post ∧
     adaptPrefix backupVersionV1 backupVersionV2 snap snapstorePrefix =
       pre +:+ ("/" +:+ backupVersionV1) +:+ post ∧
     (∀ pre' post', snapstorePrefix = pre' +:+ ("/" +:+ backupVersionV2) +:+ post' →
        (String.length pre <= String.length pre')%nat) ∧
     Contains (adaptPrefix backupVersionV1 backupVersionV2 snap snapstorePrefix)
       ("/" +:+ backupVersionV1) = true ∧
     (String.length (adaptPrefix backupVersionV1 backupVersionV2 snap snapstorePrefix) +
        String.length backupVersionV2 =
      String.length snapstorePrefix + String.length backupVersionV1)%nat).
Proof.
  unfold adaptPrefix. split.
  - intros [-> | ->]; [reflexivity|]. rewrite andb_false_r. reflexivity.
  - intros -> H2. rewrite H2. cbn [andb].
    destruct (Replace1_spec snapstorePrefix ("/" +:+ backupVersionV2)
                ("/" +:+ backupVersionV1)) as [_ Hr].
    destruct (Hr H2) as (pre & post & Hs & Hrep & Hmin).
    exists pre, post. split; [exact Hs|]. split; [exact Hrep|]. split; [exact Hmin|].
    rewrite Hrep. split; [apply Contains_middle|].
    rewrite Hs. rewrite !length_append_s. simpl. lia.
Qed.

Lemma ParseBool_spellings (v : string) :
  (snd (ParseBool syntaxError v) = None ↔
   v ∈ ["1"; "t"; "T"; "TRUE"; "true"; "True"; "0"; "f"; "F"; "FALSE"; "false"; "False"]) ∧
  (fst (ParseBool syntaxError v) = true ↔
   v ∈ ["1"; "t"; "T"; "TRUE"; "true"; "True"]).
Proof.
  unfold ParseBool. rewrite !elem_of_cons, !elem_of_nil.
  repeat match goal with
  | |- context [String.eqb v ?x] =>
      destruct (String.eqb_spec v x) as [->|?];
        [cbn; intuition (try discriminate; auto 20)|]
  end.
  cbn. intuition (try discriminate; try contradiction).
Qed.

(** X22.  [GetEnvVarToBool] returns no error exactly when the variable
    holds one of the twelve spellings [strconv.ParseBool] knows; it
    returns true exactly for the six spellings of true; and a variable
    that is unset or empty is an error naming the variable. *)
Theorem GetEnvVarToBool_spellings (h : Resolver.Host) (varName : string) :
  (snd (GetEnvVarToBool syntaxError h varName) = None ↔
   Resolver.Getenv h varName ∈
     ["1"; "t"; "T"; "TRUE"; "true"; "True"; "0"; "f"; "F"; "FALSE"; "false"; "False"]) ∧
  (fst (GetEnvVarToBool syntaxError h varName) = true ↔
   Resolver.Getenv h varName ∈ ["1"; "t"; "T"; "TRUE"; "true"; "True"]) ∧
  (Resolver.Getenv h varName = "" →
   GetEnvVarToBool syntaxError h varName =
     (false, Errorf ("missing environment variable " +:+ varName))).
Proof.
  unfold GetEnvVarToBool, GetEnvVarOrError, Resolver.isEmpty.
  destruct (String.eqb_spec (Resolver.Getenv h varName) "") as [->|Hne].
  - rewrite !elem_of_cons, !elem_of_nil. cbn.
    intuition (try discriminate; try contradiction).
  - destruct (ParseBool_spellings (Resolver.Getenv h varName)) as [H1 H2].
    split; [exact H1|]. split; [exact H2|]. intros E. contradiction.
Qed.

Lemma latestLoop_ok stat files t0 :
  Forall (λ f, ∃ fi, stat f = inl fi ∧ IsDir fi = false) files →
  ∃ t, latestLoop stat files t0 = (t, None) ∧ t0 <= t ∧
       (∀ f fi, f ∈ files → stat f = inl fi → ModTime fi <= t) ∧
       (t = t0 ∨ ∃ f fi, f ∈ files ∧ stat f = inl fi ∧ t = ModTime fi).
Proof.
  intros Hall. revert t0. induction Hall as [|f files (fi & Hs & Hd) _ IH]; intros t0.
  - exists t0. split; [reflexivity|]. split; [lia|]. split; [|auto].
    intros f fi Hf. inversion Hf.
  - cbn [latestLoop]. rewrite Hs, Hd.
    destruct (IH (if t0 <? ModTime fi then ModTime fi else t0))
      as (t & -> & Hle & Hub & Hat).
    exists t. split; [reflexivity|].
    assert (Hm : t0 <= t ∧ ModTime fi <= t) by (destruct (Z.ltb_spec t0 (ModTime fi)); lia).
    split; [lia|]. split.
    + intros g gi Hg Hsg. apply elem_of_cons in Hg as [->|Hg]; [|eapply Hub; eauto].
      rewrite Hs in Hsg. injection Hsg as <-. lia.
    + destruct Hat as [->|(g & gi & Hg & Hsg & ->)].
      * destruct (Z.ltb_spec t0 (ModTime fi)); [right|left; reflexivity].
        exists f, fi. split; [left|]. auto.
      * right. exists g, gi. split; [right; exact Hg|]. auto.
Qed.

Lemma latestLoop_err stat files t0 :
  Exists (λ f, match stat f with inr _ => True | inl fi => IsDir fi = true end) files →
  fst (latestLoop stat files t0) = zeroTime ∧ is_Some (snd (latestLoop stat files t0)).
Proof.
  revert t0. induction files as [|f files IH]; intros t0 Hex; [inversion Hex|].
  cbn [latestLoop]. destruct (stat f) as [fi|e] eqn:Hs; [|simpl; eauto].
  destruct (IsDir fi) eqn:Hd; [simpl; eauto|].
  apply IH. apply Exists_cons in Hex as [Hbad|Hex]; [|exact Hex].
  rewrite Hs in Hbad. congruence.
Qed.

(** X23.  [getLatestCredentialsModifiedTime], when every file is there and
    none is a directory, returns no error and the latest of the zero time
    and the files' modification times: no file is newer than the time
    returned, and that time is the zero time or the time of one of the
    files (the zero time for an empty list).  When a file is missing or is
    a directory, it returns an error with the zero time. *)
Theorem getLatestCredentialsModifiedTime_is_latest
    (stat : string → FileInfo + GoError) (credentialFiles : list string) :
  (Forall (λ f, ∃ fi, stat f = inl fi ∧ IsDir fi = false) credentialFiles →
   snd (getLatestCredentialsModifiedTime stat credentialFiles) = None ∧
   zeroTime <= fst (getLatestCredentialsModifiedTime stat credentialFiles) ∧
   (∀ f fi, f ∈ credentialFiles → stat f = inl fi →
      ModTime fi <= fst (getLatestCredentialsModifiedTime stat credentialFiles)) ∧
   (fst (getLatestCredentialsModifiedTime stat credentialFiles) = zeroTime ∨
    ∃ f fi, f ∈ credentialFiles ∧ stat f = inl fi ∧
            fst (getLatestCredentialsModifiedTime stat credentialFiles) = ModTime fi)) ∧
  (Exists (λ f, match stat f with inr _ => True | inl fi => IsDir fi = true end)
     credentialFiles →
   fst (getLatestCredentialsModifiedTime stat credentialFiles) = zeroTime ∧
   is_Some (snd (getLatestCredentialsModifiedTime stat credentialFiles))).
Proof.
  unfold getLatestCredentialsModifiedTime. split.
  - intros Hall. destruct (latestLoop_ok stat credentialFiles zeroTime Hall)
      as (t & -> & Hle & Hub & Hat). simpl. auto.
  - apply latestLoop_err.
Qed.

(** X24.  [writeSnapshotToTempFile] returns no error exactly when creating
    the file, copying and closing the reader all succeed.  When creating
    fails nothing is written; when copying fails the file that was created
    is still returned.  A failure to close the reader is never lost: the
    error returned carries its text, next to the text of a create or copy
    failure when there is one. *)
Theorem writeSnapshotToTempFile_errors (created : option string * error)
    (copied : Z * error) (closed : error) :
  (snd (writeSnapshotToTempFile created copied closed) = None ↔
   snd created = None ∧ snd copied = None ∧ closed = None) ∧
  (is_Some (snd created) →
   fst (writeSnapshotToTempFile created copied closed) = (fst created, 0)) ∧
  (snd created = None →
   fst (writeSnapshotToTempFile created copied closed) = (fst created, fst copied)) ∧
  (∀ e, closed = Some e →
     Contains (fmtV (snd (writeSnapshotToTempFile created copied closed)))
              (errText e) = true) ∧
  (∀ e, snd created = Some e ∨ (snd created = None ∧ snd copied = Some e) →
     Contains (fmtV (snd (writeSnapshotToTempFile created copied closed)))
              (errText e) = true).
Proof.
  unfold writeSnapshotToTempFile.
  destruct created as [f [e1|]], copied as [w [e2|]], closed as [e3|];
    cbn [fst snd Join Errorf fmtV errText].
  all: repeat split; try discriminate; try reflexivity; try tauto.
  all: try (intros [x Hx]; discriminate Hx).
  all: try (intros (? & ? & ?); discriminate).
  all: try (intros e [= <-]).
  all: try (intros e [[= <-]|[? [= <-]]]); try discriminate.
  all: try (intros e [E|[E1 E2]]; discriminate).
  all: try apply Contains_end.
  all: try (apply Contains_append_l, Contains_end).
  all: try (apply Contains_append_r, Contains_append_r, Contains_end).
Qed.


Section JSONCredential.
Variable Ext : string → string.
Variable PathJoin : string → string → string.




End JSONCredential.

End UtilsMore.

(** ** Worked examples *)

Lemma Save_fails_over_example :
  let ds := Dual.NewDualSnapStore (newSpy (failingStub dnsFailure))
                                  (newSpy (workingStub [])) in
  fst (Dual.Save sampleSnap sampleContent ds) = None ∧
  saveCalls (primary (snd (Dual.Save sampleSnap sampleContent ds))) = 1%nat ∧
  saveCalls (secondary (snd (Dual.Save sampleSnap sampleContent ds))) = 1%nat ∧
  primaryFailCount (snd (Dual.Save sampleSnap sampleContent ds)) = 1 ∧
  primaryFailed (snd (Dual.Save sampleSnap sampleContent ds)) = true.
Proof.
  intros ds.
  destruct (Save_fails_over_to_secondary sampleSnap sampleContent ds
              {| errText := dnsFailure; netError := None |})
    as (H1 & H2 & H3 & H4 & H5); [reflexivity..|].
  split; [exact H1|]. split; [exact H2|]. split; [exact H3|]. split; [exact H4|exact H5].
Defined.

Lemma Save_both_fail_example :
  let ds := Dual.NewDualSnapStore (failingStub "access denied") (failingStub "no such key") in
  fst (Dual.Save sampleSnap sampleContent ds) =
    Errorf ("failed to save snapshot Full-00000000-00000010-1640995200 to both " +:+
            "endpoints - Primary: access denied, Secondary: no such key").
Proof.
  intros ds.
  destruct (Save_both_fail_names_both_causes sampleSnap sampleContent ds
              {| errText := "access denied"; netError := None |}
              {| errText := "no such key"; netError := None |}
              (failingStub "access denied") (failingStub "no such key"))
    as (H1 & _); [reflexivity..|].
  exact H1.
Defined.

Lemma disabled_primary_routes_example :
  let ds := mkDual (newSpy (failingStub "down")) (newSpy (workingStub [])) true 3 in
  fst (Dual.Save sampleSnap sampleContent ds) = None ∧
  primary (snd (Dual.Save sampleSnap sampleContent ds)) = primary ds ∧
  primary (snd (Dual.Fetch sampleSnap ds)) = primary ds ∧
  fetchCalls (secondary (snd (Dual.Fetch sampleSnap ds))) = 1%nat.
Proof.
  intros ds.
  destruct (disabled_primary_routes_to_secondary sampleSnap sampleContent ds)
    as ((H1 & _ & H3 & _) & (H5 & H6 & _)); [reflexivity..|].
  split; [apply H3; reflexivity|]. split; [exact H1|]. split; [exact H5|exact H6].
Defined.

Lemma Fetch_prefers_primary_example :
  let ds := Dual.NewDualSnapStore (newSpy (failingStub "no such key"))
                                  (newSpy (workingStub [])) in
  fst (Dual.Fetch sampleSnap ds) = (Some (NopCloser []), None) ∧
  fetchCalls (primary (snd (Dual.Fetch sampleSnap ds))) = 1%nat ∧
  fetchCalls (secondary (snd (Dual.Fetch sampleSnap ds))) = 1%nat.
Proof.
  intros ds.
  destruct (Fetch_prefers_primary_then_secondary sampleSnap ds) as (_ & H2);
    [reflexivity|].
  destruct H2 as (H3 & H4 & H5); [eexists; reflexivity|reflexivity|].
  split; [exact H3|]. split; [exact H4|exact H5].
Defined.

Lemma resilient_resolve_example :
  let secondaryConfig :=
    Resolver.mkConfig Resolver.SnapstoreProviderS3 "secondary-bucket" "etcd-backups" "/tmp"
      3 33554432 false true Resolver.ProviderUnset "" "" 0 0 in
  Resolver.resultOf
    (Resolver.GetResilientSnapstore "v2" Resolver.specHasSecondaryEndpoint
       Resolver.specGetSecondaryConfig Resolver.dualConfig
       (Resolver.primaryDownHost "access denied")) =
    (Some (Resolver.ResilientS3
             (Resolver.ProviderSnapStore Resolver.SnapstoreProviderS3 secondaryConfig
                "secondary")), None).
Proof.
  intros secondaryConfig.
  exact (resilient_resolve_decision_table "v2" Resolver.specHasSecondaryEndpoint
           Resolver.specGetSecondaryConfig Resolver.dualConfig secondaryConfig
           (Resolver.primaryDownHost "access denied") eq_refl eq_refl).
Defined.

Lemma basic_dual_resolve_example :
  is_Some (fst (Resolver.resultOf
                  (Resolver.GetSnapstore "v2" Resolver.specHasSecondaryEndpoint
                     Resolver.specGetSecondaryConfig Resolver.dualConfig
                     Resolver.quietHost))) ∧
  Resolver.resultOf
    (Resolver.GetSnapstore "v2" Resolver.specHasSecondaryEndpoint
       Resolver.specGetSecondaryConfig Resolver.dualConfig
       (Resolver.primaryDownHost "access denied")) =
    (None, Errorf "failed to create primary snapstore: access denied").
Proof.
  split.
  - destruct (basic_dual_resolve_all_or_nothing "v2" Resolver.specHasSecondaryEndpoint
                Resolver.specGetSecondaryConfig Resolver.dualConfig Resolver.quietHost)
      as ([_ H1] & _); [reflexivity|].
    apply H1. split; [reflexivity|]. eexists. split; reflexivity.
  - destruct (basic_dual_resolve_all_or_nothing "v2" Resolver.specHasSecondaryEndpoint
                Resolver.specGetSecondaryConfig Resolver.dualConfig
                (Resolver.primaryDownHost "access denied"))
      as (_ & _ & H3); [reflexivity|].
    destruct (H3 {| errText := "access denied"; netError := None |}) as [H4 _];
      [reflexivity|].
    exact H4.
Defined.

Lemma collectChunkUploadError_without_chunks_example :
  let c0 := ChunkUpload.mkChunk 0 100 0 1 in
  let ok c := ChunkUpload.mkResult None c in
  ChunkUpload.stopClosed (ChunkUpload.collectChunkUploadError 5 [ok c0; ok c0] 0) = false ∧
  ChunkUpload.unread (ChunkUpload.collectChunkUploadError 5 [ok c0; ok c0] 0) = [].
Proof.
  intros c0 ok.
  destruct (collectChunkUploadError_without_chunks 5 [ok c0; ok c0] 0) as [_ H2];
    [lia|vm_compute; discriminate|].
  apply H2. repeat constructor.
Defined.

Lemma failing_chunk_example :
  let c0 := ChunkUpload.mkChunk 0 100 0 1 in
  let e := {| errText := "i/o timeout"; netError := None |} in
  ChunkUpload.returned
    (ChunkUpload.collectChunkUploadError 5 (ChunkUpload.failingAttempts e c0 6) 3) =
    Some (ChunkUpload.mkResult (Some e) (ChunkUpload.mkChunk 0 100 5 1)) ∧
  ChunkUpload.totalDelay (ChunkUpload.backoffTimers c0 0 5) = 31 * ChunkUpload.Second.
Proof.
  intros c0 e.
  destruct (failing_chunk_is_given_up 5 e c0 [] 3) as (H1 & H2 & _); [reflexivity|lia|].
  split; [|exact H2].
  change (ChunkUpload.failingAttempts e c0 6)
    with (ChunkUpload.failingAttempts e c0 (S (Z.to_nat 5)) ++ []).
  rewrite H1. reflexivity.
Defined.
